(** * TritonHTTP: request framing, routing and the connection session

    A shallow embedding of [pkg/tritonhttp] (request.go, response.go and the
    server half that shares its file) together with the properties of the
    request parser, the response builder, the router and the session loop.

    Conventions of the embedding.
    - Go strings are byte strings: [string] of the Standard Library.
    - Go maps are [gmap string string].
    - A run-time panic (index out of range, nil dereference) is a value of
      [outcome]; nothing is assumed about inputs to rule panics out.
    - Go's [int] indices are [Z].
    - The network connection, the file system and the clock are explicit
      state or oracles ([Conn], [OS]). *)

From Stdlib Require Import ZArith Lia Ascii.
From Stdlib Require String.
From stdpp Require Import base option list strings gmap sorting pretty.

Local Open Scope Z_scope.

(** ** Outcomes of Go code that may panic *)

Inductive panic : Type :=
  | IndexOutOfRange
  | NilDereference.

Inductive outcome (A : Type) : Type :=
  | Ret (a : A)
  | Panic (p : panic)
  | OutOfFuel.
Arguments Ret {A} a.
Arguments Panic {A} p.
Arguments OutOfFuel {A}.

Definition outcome_bind {A B} (f : A → outcome B) (m : outcome A) : outcome B :=
  match m with
  | Ret a => f a
  | Panic p => Panic p
  | OutOfFuel => OutOfFuel
  end.

#[global] Instance outcome_ret : MRet outcome := @Ret.
#[global] Instance outcome_mbind : MBind outcome := @outcome_bind.

(** [l[i]] on a slice. *)
Definition index {A} (l : list A) (i : Z) : outcome A :=
  if decide (i < 0) then Panic IndexOutOfRange
  else match l !! Z.to_nat i with
       | Some x => Ret x
       | None => Panic IndexOutOfRange
       end.

(** [s[i]] on a string. *)
Definition byteAt (s : string) (i : Z) : outcome ascii :=
  if decide (i < 0) then Panic IndexOutOfRange
  else match String.get (Z.to_nat i) s with
       | Some c => Ret c
       | None => Panic IndexOutOfRange
       end.

Definition len (s : string) : Z := Z.of_nat (String.length s).

(** ** The part of Go's [strings] package the server uses

    Every separator in the source is a one-byte literal, so separators are
    bytes here. *)

Module strings.

Definition CR : ascii := Ascii.ascii_of_nat 13.
Definition LF : ascii := Ascii.ascii_of_nat 10.
Definition CRLF : string := String CR (String LF "").

(** The text before and after the first occurrence of [sep]. *)
Fixpoint Cut (s : string) (sep : ascii) : option (string * string) :=
  match s with
  | EmptyString => None
  | String c s' =>
      if decide (c = sep) then Some (EmptyString, s')
      else match Cut s' sep with
           | Some (a, b) => Some (String c a, b)
           | None => None
           end
  end.

(** [strings.Split(s, sep)]: all the pieces, never an empty slice. *)
Fixpoint Split (s : string) (sep : ascii) : list string :=
  match s with
  | EmptyString => [EmptyString]
  | String c s' =>
      if decide (c = sep) then EmptyString :: Split s' sep
      else match Split s' sep with
           | x :: xs => String c x :: xs
           | [] => [String c EmptyString]
           end
  end.

(** At most [S cuts] pieces, the last one being the unsplit remainder. *)
Fixpoint splitCuts (cuts : nat) (s : string) (sep : ascii) : list string :=
  match cuts with
  | O => [s]
  | S k =>
      match Cut s sep with
      | None => [s]
      | Some (a, b) => a :: splitCuts k b sep
      end
  end.

(** [strings.SplitN(s, sep, n)]. *)
Definition SplitN (s : string) (sep : ascii) (n : Z) : list string :=
  if decide (n = 0) then []
  else if decide (n < 0) then Split s sep
  else splitCuts (Z.to_nat (n - 1)) s sep.

Fixpoint Join (elems : list string) (sep : string) : string :=
  match elems with
  | [] => EmptyString
  | [x] => x
  | x :: xs => x +:+ sep +:+ Join xs sep
  end.

Fixpoint inCutset (c : ascii) (cutset : string) : bool :=
  match cutset with
  | EmptyString => false
  | String d cs => if decide (c = d) then true else inCutset c cs
  end.

Fixpoint TrimLeft (s : string) (cutset : string) : string :=
  match s with
  | EmptyString => EmptyString
  | String c s' => if inCutset c cutset then TrimLeft s' cutset else s
  end.

Fixpoint TrimRight (s : string) (cutset : string) : string :=
  match s with
  | EmptyString => EmptyString
  | String c s' =>
      match TrimRight s' cutset with
      | EmptyString => if inCutset c cutset then EmptyString else String c EmptyString
      | t => String c t
      end
  end.

Fixpoint HasPrefix (s prefix : string) : bool :=
  match prefix, s with
  | EmptyString, _ => true
  | String p ps, String c cs => if decide (c = p) then HasPrefix cs ps else false
  | String _ _, EmptyString => false
  end.

Definition HasSuffix (s suffix : string) : bool :=
  HasPrefix (String.rev s) (String.rev suffix).

(** [s[:len(s)-n]] for [n <= len(s)]. *)
Definition dropLast (n : nat) (s : string) : string :=
  String.substring 0 (String.length s - n) s.

End strings.

(** ** Errors *)

(** The error values the server tells apart: [io.EOF], a [net.Error] with its
    [Timeout()] answer, and everything else ([fmt.Errorf], [os] errors). *)
Inductive error : Type :=
  | io_EOF
  | net_Error (Timeout : bool)
  | fmt_Errorf (msg : string)
  | os_PathError (path : string).

#[global] Instance error_eq_dec : EqDecision error.
Proof. solve_decision. Defined.

(** ** The buffered reader over the connection

    What the reads of one connection will meet, in order: a byte that
    arrives before the deadline armed for the current attempt, or a failed
    read (the deadline passes first, or the socket reports an error).  The end
    of the list is the peer closing its side: every later read is [io.EOF]. *)
Inductive item : Type :=
  | Byte (c : ascii)
  | Fail (e : error).

Definition Reader : Type := list item.

(** The items of a received text. *)
Fixpoint bytes (s : string) : Reader :=
  match s with
  | EmptyString => []
  | String c s' => Byte c :: bytes s'
  end.

(** [br.Peek(1)], of which the caller keeps the error only. *)
Definition Peek1 (br : Reader) : option error * Reader :=
  match br with
  | [] => (Some io_EOF, [])
  | Fail e :: br' => (Some e, br')
  | Byte _ :: _ => (None, br)
  end.

(** Modelled from the spec: [ReadLine] is not among the sources.  Section 4.1
    of the specification: it produces the next line with its trailing CRLF
    stripped, accepts LF as a terminator only right after CR, does not retry,
    and hands the underlying error on unchanged.  As in Go's
    [bufio.Reader.ReadString], the bytes read before an error come back with
    it. *)
Fixpoint ReadLine_from (line : string) (br : Reader) : string * option error * Reader :=
  match br with
  | [] => (line, Some io_EOF, [])
  | Fail e :: br' => (line, Some e, br')
  | Byte c :: br' =>
      let line := line +:+ String c EmptyString in
      if decide (c = strings.LF) then
        if strings.HasSuffix line strings.CRLF
        then (strings.dropLast 2 line, None, br')
        else ReadLine_from line br'
      else ReadLine_from line br'
  end.

Definition ReadLine (br : Reader) : string * option error * Reader :=
  ReadLine_from EmptyString br.

(** ** Requests *)

Module Request.
Record t : Type := mk {
  Method : string;
  URL : string;
  Proto : string;
  Header : gmap string string;
  Host : string;
  Close : bool
}.

(** [&Request{}] *)
Definition zero : t := mk "" "" "" ∅ "" false.
End Request.

Definition responseProto : string := "HTTP/1.1".
Definition statusOK : Z := 200.
Definition statusMethodNotAllowed : Z := 400.
Definition fileNotFound : Z := 404.

(** [fmt.Sprintf("%v", fields)] for a slice of strings. *)
Definition Sprint_strings (fields : list string) : string :=
  "[" +:+ strings.Join fields " " +:+ "]".

Definition parseStartLine (line : string) : list string * option error :=
  let fields := strings.SplitN line " " 3 in
  if decide (length fields ≠ 3%nat)
  then (fields, Some (fmt_Errorf ("Bad start line: " +:+ Sprint_strings fields)))
  else (fields, None).

Definition validKeyByte (r : ascii) : bool :=
  let n := Ascii.N_of_ascii r in
  negb (((n <? 97) || (122 <? n)) && ((n <? 65) || (90 <? n))
        && ((n <? 48) || (57 <? n)) && negb (n =? 45))%N.

Fixpoint allValidKeyBytes (key : string) : bool :=
  match key with
  | EmptyString => true
  | String r key' => if validKeyByte r then allValidKeyBytes key' else false
  end.

Definition validKey (key : string) : bool :=
  if decide (String.length key = 0%nat) then false else allValidKeyBytes key.

Definition convertValue (val : string) : string :=
  let val := strings.TrimLeft val " " in
  let val := strings.TrimRight val strings.CRLF in
  val.

Definition validMethod (method : string) : bool := bool_decide (method = "GET").

Definition validProto (proto : string) : bool := bool_decide (proto = responseProto).

Definition validURL (URL : string) : outcome bool :=
  c ← byteAt URL 0;
  if decide (String c EmptyString ≠ "/") then Ret false else Ret true.

Section Parser.

(** [CanonicalHeaderKey] is not among the sources; the parser is verified
    for whatever canonical capitalisation it computes. *)
Variable CanonicalHeaderKey : string → string.

Definition parseHeader (header : string) : string * string * option error :=
  let headerArr := strings.SplitN header ":" 2 in
  match headerArr with
  | [k; v] =>
      if negb (validKey k) then ("", "", Some (fmt_Errorf "Bad key"))
      else (CanonicalHeaderKey k, convertValue v, None)
  | _ => ("", "", Some (fmt_Errorf "Bad header"))
  end.

(** The variables the header loop of [ReadRequest] updates. *)
Record headerVars : Type := mkVars {
  req : Request.t;
  haveHost : Z;
  headerMap : gmap string string
}.

Definition setHost (val : string) (r : Request.t) : Request.t :=
  Request.mk (Request.Method r) (Request.URL r) (Request.Proto r)
             (Request.Header r) val (Request.Close r).

Definition setClose (b : bool) (r : Request.t) : Request.t :=
  Request.mk (Request.Method r) (Request.URL r) (Request.Proto r)
             (Request.Header r) (Request.Host r) b.

Definition setHeader (h : gmap string string) (r : Request.t) : Request.t :=
  Request.mk (Request.Method r) (Request.URL r) (Request.Proto r)
             h (Request.Host r) (Request.Close r).

(** [for _, header := range requestLineArr[1:] { ... }], leaving at the
    first header that does not parse. *)
Fixpoint headerLoop (headers : list string) (vs : headerVars) : error + headerVars :=
  match headers with
  | [] => inr vs
  | header :: rest =>
      let '(key, val, err) := parseHeader header in
      match err with
      | Some e => inl e
      | None =>
          if decide (key = "Host") then
            headerLoop rest (mkVars (setHost val (req vs)) 1 (headerMap vs))
          else if decide (key = "Connection") then
            if decide (val = "close")
            then headerLoop rest (mkVars (setClose true (req vs)) (haveHost vs) (headerMap vs))
            else headerLoop rest vs
          else
            headerLoop rest (mkVars (req vs) (haveHost vs) (<[key := val]> (headerMap vs)))
      end
  end.

(** The line loop of [ReadRequest]:
    [for temp_line, err := ReadLine(br); temp_line != ""; { ... }].
    The condition looks at the line only; the error is looked at inside the
    body.  [None] is the loop still running when the fuel is spent. *)
Fixpoint lineLoop (fuel : nat) (temp_line : string) (err : option error)
    (br : Reader) (requestLineArr : list string)
    : option (error + list string) * Reader :=
  if decide (temp_line ≠ "") then
    match err with
    | Some e => (Some (inl e), br)
    | None =>
        match fuel with
        | O => (None, br)
        | S fuel' =>
            let requestLineArr := requestLineArr ++ [temp_line] in
            let '(temp_line, err, br) := ReadLine br in
            lineLoop fuel' temp_line err br requestLineArr
        end
    end
  else (Some (inr requestLineArr), br).

(** The loop started on [br].  A line that is not the last takes at least
    one item of the input with it, so as many turns as the input has items,
    and one more, are enough. *)
Definition readLines (br : Reader) : option (error + list string) * Reader :=
  let '(temp_line, err, br') := ReadLine br in
  lineLoop (S (length br)) temp_line err br' [].

(** [ReadRequest] from the comment "Deal with empty bad request" on. *)
Definition parseLines (requestLineArr : list string) (bytesReceived : bool)
    : outcome (option Request.t * bool * option error) :=
  let requestLineArr :=
    if decide (length requestLineArr = 0%nat)
    then requestLineArr ++ ["Empty bad request"] else requestLineArr in
  line0 ← index requestLineArr 0;
  let '(startLine, err) := parseStartLine line0 in
  match err with
  | Some e => Ret (None, bytesReceived, Some e)
  | None =>
      method ← index startLine 0;
      url ← index startLine 1;
      proto ← index startLine 2;
      let r := Request.mk method url proto ∅ "" false in
      if negb (validMethod (Request.Method r))
      then Ret (None, bytesReceived, Some (fmt_Errorf "Bad Method."))
      else
        okURL ← validURL (Request.URL r);
        if negb okURL
        then Ret (None, bytesReceived, Some (fmt_Errorf "URL doesn't start with slash."))
        else if negb (validProto (Request.Proto r))
        then Ret (None, bytesReceived, Some (fmt_Errorf "Bad Proto."))
        else
          match headerLoop (drop 1 requestLineArr) (mkVars r 0 ∅) with
          | inl e => Ret (None, bytesReceived, Some e)
          | inr vs =>
              if decide (haveHost vs = 0)
              then Ret (None, bytesReceived, Some (fmt_Errorf "Missing Host."))
              else Ret (Some (setHeader (headerMap vs) (req vs)), bytesReceived, None)
          end
  end.

(** [ReadRequest(br)]: the request, whether a byte was received, the error;
    and the reader afterwards. *)
Definition ReadRequest (br : Reader)
    : outcome (option Request.t * bool * option error) * Reader :=
  let '(errByteReceived, br) := Peek1 br in
  match errByteReceived with
  | Some e => (Ret (None, false, Some e), br)
  | None =>
      let bytesReceived := true in
      match readLines br with
      | (None, br') => (OutOfFuel, br')
      | (Some (inl e), br') => (Ret (None, bytesReceived, Some e), br')
      | (Some (inr requestLineArr), br') => (parseLines requestLineArr bytesReceived, br')
      end
  end.

End Parser.

(** ** Responses *)

Module Response.
Record t : Type := mk {
  StatusCode : Z;
  Proto : string;
  Header : gmap string string;
  Request : option Request.t;
  FilePath : string
}.

(** [&Response{}] *)
Definition zero : t := mk 0 "" ∅ None "".
End Response.

Definition statusText : gmap Z string :=
  {[ statusOK := "OK";
     statusMethodNotAllowed := "Bad Request";
     fileNotFound := "Not Found" ]}.

(** ** The writing side of the connection

    [sent] is what reached the peer.  [faults] says how the coming calls of
    the connection's [Write] behave, one entry a call: [None] (and the end of
    the list) takes the whole buffer, [Some (n, e)] takes [n] bytes of it and
    fails with [e]. *)
Record Writer : Type := mkWriter {
  sent : string;
  faults : list (option (nat * error))
}.

(** [bw := bufio.NewWriter(w); bw.WriteString(s); bw.Flush()]: the text is
    handed to the connection in one call; an empty buffer is not handed on. *)
Definition writeFlush (w : Writer) (s : string) : option error * Writer :=
  if decide (s = "") then (None, w)
  else match faults w with
       | [] => (None, mkWriter (sent w +:+ s) [])
       | None :: fs => (None, mkWriter (sent w +:+ s) fs)
       | Some (n, e) :: fs => (Some e, mkWriter (sent w +:+ String.substring 0 n s) fs)
       end.

(** ** [sort.Strings]: ascending in the byte-wise lexicographic order of Go
    strings, which is [String.le] *)

Module sort.
Definition Strings (a : list string) : list string := merge_sort String.le a.
End sort.

(** ** The operating system: files and the clock *)

Record FileInfo : Type := mkFileInfo {
  Size : Z;
  ModTime : Z
}.

Record OS : Type := mkOS {
  (** [os.Stat(path)]; [None] is a non-nil error *)
  Stat : string → option FileInfo;
  (** [os.ReadFile(path)] *)
  ReadFile : string → error + string;
  (** [time.Now()] *)
  Now : Z;
  (** whether [filepath.Rel(base, target)] returns an error *)
  RelFails : string → string → bool
}.

(** ** [filepath.Clean] (Unix), by the rules of its documentation

    Empty elements and [.] go; [..] takes the element before it with it, is
    dropped at the root of a rooted path and kept at the start of a relative
    one; the empty path is [.]. *)
Module filepath.

(** [out] holds the elements kept so far, the last one first. *)
Definition step (rooted : bool) (out : list string) (elem : string) : list string :=
  if decide (elem = "") then out
  else if decide (elem = ".") then out
  else if decide (elem = "..") then
    match out with
    | top :: out' =>
        if decide (top = "..") then ".." :: out else out'
    | [] => if rooted then [] else [".."]
    end
  else elem :: out.

Definition Clean (path : string) : string :=
  if decide (path = "") then "."
  else
    let rooted := strings.HasPrefix path "/" in
    let out := rev (foldl (step rooted) [] (strings.Split path "/")) in
    if rooted then "/" +:+ strings.Join out "/"
    else if decide (out = []) then "." else strings.Join out "/".

End filepath.

(** ** Writing a response *)

Section Write.

Variable os : OS.

Definition WriteStatusLine (res : Response.t) (w : Writer) : option error * Writer :=
  let statusLine :=
    Response.Proto res +:+ " " +:+ pretty (Response.StatusCode res) +:+ " "
    +:+ default "" (statusText !! Response.StatusCode res) +:+ strings.CRLF in
  writeFlush w statusLine.

(** [for key, _ := range res.Header { keyArray = append(keyArray, key) }] *)
Definition keyArray (res : Response.t) : list string :=
  (map_to_list (Response.Header res)).*1.

Definition headerText (res : Response.t) (keys : list string) : string :=
  foldl (λ headerLine key,
           headerLine +:+ key +:+ ": "
           +:+ default "" (Response.Header res !! key) +:+ strings.CRLF)
        "" keys.

Definition WriteSortedHeaders (res : Response.t) (w : Writer) : option error * Writer :=
  let keyArray := sort.Strings (keyArray res) in
  let headerLine := headerText res keyArray in
  let headerLine := headerLine +:+ strings.CRLF in
  writeFlush w headerLine.

Definition WriteBody (res : Response.t) (w : Writer) : option error * Writer :=
  if decide (Response.FilePath res = "") then (None, w)
  else match ReadFile os (Response.FilePath res) with
       | inl err => (Some err, w)
       | inr file => writeFlush w file
       end.

Definition Write (res : Response.t) (w : Writer) : option error * Writer :=
  match WriteStatusLine res w with
  | (Some err, w) => (Some err, w)
  | (None, w) =>
      match WriteSortedHeaders res w with
      | (Some err, w) => (Some err, w)
      | (None, w) =>
          match WriteBody res w with
          | (Some err, w) => (Some err, w)
          | (None, w) => (None, w)
          end
      end
  end.

End Write.

(** ** The server *)

Record Server : Type := mkServer {
  Addr : string;
  DocRoot : string
}.

(** The writing side, the reading side and the deadline of one accepted
    connection.  [armFails] says whether the coming calls of
    [SetReadDeadline] fail, one entry a call (the end of the list: they
    succeed). *)
Record Conn : Type := mkConn {
  reader : Reader;
  armFails : list bool;
  writer : Writer
}.

(** What one session does to its connection, in order. *)
Inductive event : Type :=
  | EvSetReadDeadline (seconds : Z)
  | EvReadRequest
  | EvWrite (res : Response.t) (err : option error)
  | EvClose.

(** How one turn of the session loop ends. *)
Inductive turn : Type :=
  | Continue
  | Return
  | Crash (p : panic)
  | Unfinished.

Section Server.

Variable CanonicalHeaderKey : string → string.
(** [MIMETypeByExtension] and [FormatTime] are not among the sources. *)
Variable MIMETypeByExtension : string → string.
Variable FormatTime : Z → string.
(** [fmt.Sprint] of a [time.Time]. *)
Variable Sprint_Time : Z → string.
Variable os : OS.

Definition exists_ (path : string) : bool * option error :=
  match Stat os path with
  | Some _ => (true, None)
  | None => (false, None)
  end.

Definition HandleOK (res : Response.t) (req : Request.t) (path : string)
    : outcome Response.t :=
  let file := Stat os path in
  part ← index (strings.SplitN path "." 2) 1;
  let ext := "." +:+ part in
  let resMap : gmap string string := ∅ in
  let resMap := <["Content-Type" := MIMETypeByExtension ext]> resMap in
  let resMap := <["Date" := FormatTime (Now os)]> resMap in
  match file with
  | None => Panic NilDereference
  | Some file =>
      let resMap := <["Content-Length" := pretty (Size file)]> resMap in
      let resMap := <["Last-Modified" := Sprint_Time (ModTime file)]> resMap in
      let resMap :=
        if Request.Close req then <["Connection" := "close"]> resMap else resMap in
      Ret (Response.mk statusOK responseProto resMap (Some req) path)
  end.

Definition HandleNotFound (res : Response.t) (req : Request.t) : Response.t :=
  let resMap : gmap string string := ∅ in
  let resMap := <["Date" := FormatTime (Now os)]> resMap in
  let resMap :=
    if Request.Close req then <["Connection" := "close"]> resMap else resMap in
  Response.mk fileNotFound responseProto resMap (Some req) "".

Definition HandleBadRequest (res : Response.t) : Response.t :=
  let resMap : gmap string string := ∅ in
  let resMap := <["Connection" := "close"]> resMap in
  let resMap := <["Date" := FormatTime (Now os)]> resMap in
  Response.mk statusMethodNotAllowed responseProto resMap (Response.Request res) "".

Definition HandleBadRequestTimeOut (res : Response.t) : Response.t :=
  let resMap : gmap string string := ∅ in
  let resMap := <["Connection" := "close"]> resMap in
  let resMap := <["Date" := FormatTime (Now os)]> resMap in
  Response.mk statusMethodNotAllowed responseProto resMap (Response.Request res) "".

(** [for i, v := range root_split { if url_split[i] != v { ... return } }]:
    [true] when an element differs. *)
Fixpoint rootLoop (i : Z) (root_split url_split : list string) : outcome bool :=
  match root_split with
  | [] => Ret false
  | v :: rest =>
      u ← index url_split i;
      if decide (u ≠ v) then Ret true else rootLoop (i + 1) rest url_split
  end.

Definition HandleGoodRequest (s : Server) (req : Request.t) : outcome Response.t :=
  let res := Response.zero in
  let req_url := Request.URL req in
  last ← byteAt req_url (len req_url - 1);
  let req_url :=
    if decide (String last EmptyString = "/") then req_url +:+ "index.html" else req_url in
  let url_split_concat := DocRoot s +:+ req_url in
  let path := filepath.Clean url_split_concat in
  let url_split := strings.Split path "/" in
  let root_split := strings.Split (DocRoot s) "/" in
  differs ← rootLoop 0 root_split url_split;
  if differs : bool then Ret (HandleNotFound res req)
  else if RelFails os (DocRoot s) path then Ret (HandleNotFound res req)
  else
    let '(pathExist, _) := exists_ path in
    if pathExist : bool then HandleOK res req path
    else Ret (HandleNotFound res req).

Definition isEOF (err : option error) : bool :=
  match err with Some io_EOF => true | _ => false end.

(** [errTimeOut, ok := err.(net.Error)] followed by [ok && errTimeOut.Timeout()] *)
Definition isTimeout (err : option error) : bool :=
  match err with Some (net_Error t) => t | _ => false end.

Definition setReader (br : Reader) (c : Conn) : Conn :=
  mkConn br (armFails c) (writer c).
Definition setWriter (w : Writer) (c : Conn) : Conn :=
  mkConn (reader c) (armFails c) w.

(** The body of the loop from the comment "Handle EOF" on: what the session
    does with the result of [ReadRequest]. *)
Definition dispatch (s : Server) (c : Conn)
    (r : outcome (option Request.t * bool * option error)) : turn * list event * Conn :=
  let armed := EvSetReadDeadline 5 in
  match r with
  | Panic p => (Crash p, [armed; EvReadRequest], c)
  | OutOfFuel => (Unfinished, [armed; EvReadRequest], c)
  | Ret (req, bytesReceived, err_req) =>
      if isEOF err_req then (Return, [armed; EvReadRequest; EvClose], c)
      else if isTimeout err_req && negb bytesReceived then
        (Return, [armed; EvReadRequest; EvClose], c)
      else if isTimeout err_req && bytesReceived then
        let res := HandleBadRequestTimeOut Response.zero in
        let '(werr, w) := Write os res (writer c) in
        (Return, [armed; EvReadRequest; EvWrite res werr; EvClose], setWriter w c)
      else if bool_decide (err_req ≠ None) then
        let res := HandleBadRequest Response.zero in
        let '(werr, w) := Write os res (writer c) in
        (Return, [armed; EvReadRequest; EvWrite res werr; EvClose], setWriter w c)
      else
        match req with
        | None => (Crash NilDereference, [armed; EvReadRequest], c)
        | Some req =>
            match HandleGoodRequest s req with
            | Panic p => (Crash p, [armed; EvReadRequest], c)
            | OutOfFuel => (Unfinished, [armed; EvReadRequest], c)
            | Ret res =>
                let '(werr, w) := Write os res (writer c) in
                if Request.Close req then
                  (Return, [armed; EvReadRequest; EvWrite res werr; EvClose],
                   setWriter w c)
                else
                  (Continue, [armed; EvReadRequest; EvWrite res werr], setWriter w c)
            end
        end
  end.

(** The body of the [for] loop of [HandleConnection]: arm the deadline, try
    to read the next request, and deal with what came. *)
Definition turnOf (s : Server) (c : Conn) : turn * list event * Conn :=
  match armFails c with
  | true :: fs => (Return, [EvSetReadDeadline 5; EvClose], mkConn (reader c) fs (writer c))
  | _ =>
      let c := mkConn (reader c) (tail (armFails c)) (writer c) in
      let '(r, br) := ReadRequest CanonicalHeaderKey (reader c) in
      dispatch s (setReader br c) r
  end.

(** [for { ... }] *)
Fixpoint sessionLoop (fuel : nat) (s : Server) (c : Conn) : turn * list event * Conn :=
  match fuel with
  | O => (Unfinished, [], c)
  | S fuel' =>
      match turnOf s c with
      | (Continue, evs, c') =>
          let '(t, evs', c'') := sessionLoop fuel' s c' in
          (t, evs ++ evs', c'')
      | stop => stop
      end
  end.

(** [s.HandleConnection(conn)].  A turn that does not return consumes a byte
    of the input, so the loop has finished after as many turns as the input
    has items, and one more. *)
Definition HandleConnection (s : Server) (c : Conn) : turn * list event * Conn :=
  sessionLoop (S (length (reader c))) s c.

End Server.

(** ** A concrete server for the examples *)

Module Demo.

Definition isLower (c : ascii) : bool :=
  let n := Ascii.N_of_ascii c in ((97 <=? n) && (n <=? 122))%N.
Definition isUpper (c : ascii) : bool :=
  let n := Ascii.N_of_ascii c in ((65 <=? n) && (n <=? 90))%N.
Definition toUpper (c : ascii) : ascii :=
  if isLower c then Ascii.ascii_of_N (Ascii.N_of_ascii c - 32) else c.
Definition toLower (c : ascii) : ascii :=
  if isUpper c then Ascii.ascii_of_N (Ascii.N_of_ascii c + 32) else c.

Fixpoint canonical (upper : bool) (s : string) : string :=
  match s with
  | EmptyString => EmptyString
  | String c s' =>
      String (if upper then toUpper c else toLower c)
             (canonical (bool_decide (c = "-"%char)) s')
  end.

(** Modelled from the spec: [CanonicalHeaderKey] is not among the sources.
    Section 3 of the specification: header keys are case-insensitive and
    normalised to a canonical capitalisation; here, as for MIME headers, the
    first letter and every letter after a hyphen in upper case, the others
    in lower case. *)
Definition CanonicalHeaderKey (s : string) : string := canonical true s.

(** Modelled from the spec: [MIMETypeByExtension] is not among the sources.
    Section 6 of the specification: a classifier from a file extension to a
    MIME string with a fallback for unknown extensions. *)
Definition MIMETypeByExtension (ext : string) : string :=
  if decide (ext = ".html") then "text/html"
  else if decide (ext = ".jpg") then "image/jpeg"
  else "application/octet-stream".

(** Modelled from the spec: [FormatTime] is not among the sources.  Section 6
    of the specification: a formatter producing the date of a header; here
    the seconds since the epoch followed by the zone. *)
Definition FormatTime (t : Z) : string := pretty t +:+ " GMT".

(** [fmt.Sprint] of a time, in the same simple manner. *)
Definition Sprint_Time (t : Z) : string := pretty t +:+ " +0000 UTC".

(** A document root [/var/www] that holds [index.html] (10 bytes) and an
    extensionless [README] (3 bytes). *)
Definition files : gmap string string :=
  {[ "/var/www/index.html" := "0123456789";
     "/var/www/README" := "abc" ]}.

Definition os : OS :=
  mkOS (λ path, (λ body, mkFileInfo (len body) 1000) <$> files !! path)
       (λ path, match files !! path with
                | Some body => inr body
                | None => inl (os_PathError path)
                end)
       2000
       (λ _ _, false).

Definition server : Server := mkServer ":8080" "/var/www".

Definition conn (br : Reader) : Conn := mkConn br [] (mkWriter "" []).

(** The lines of a message, each followed by CRLF. *)
Definition lines (l : list string) : string :=
  foldr (λ line rest, line +:+ strings.CRLF +:+ rest) "" l.

(** A request with its special headers in mixed case, and what the parser
    makes of it. *)
Definition pipelined : Reader :=
  bytes (lines ["GET /a.jpg HTTP/1.1"; "host: a.org"; "Accept: */*";
                "connection:   close"; "HOST: b.org"; ""]).

Definition parsed : Request.t :=
  Request.mk "GET" "/a.jpg" "HTTP/1.1" {[ "Accept" := "*/*" ]} "b.org" true.

(** A request without a [Host] header. *)
Definition hostless : Reader :=
  bytes (lines ["GET /index.html HTTP/1.1"; "Accept: */*"; "Connection: close"; ""]).

(** A request for the index page, and the response to it. *)
Definition indexRequest : Reader := bytes (lines ["GET / HTTP/1.1"; "Host: x"; ""]).

Definition indexResponse : Response.t :=
  Response.mk 200 "HTTP/1.1"
    {[ "Content-Length" := "10"; "Content-Type" := "text/html";
       "Date" := "2000 GMT"; "Last-Modified" := "1000 +0000 UTC" ]}
    (Some (Request.mk "GET" "/" "HTTP/1.1" ∅ "x" false))
    "/var/www/index.html".

Definition handleConnection (c : Conn) : turn * list event * Conn :=
  HandleConnection CanonicalHeaderKey MIMETypeByExtension FormatTime Sprint_Time
                   os server c.

Definition handleGoodRequest (req : Request.t) : outcome Response.t :=
  HandleGoodRequest MIMETypeByExtension FormatTime Sprint_Time os server req.

End Demo.

(** The responses a log shows as written, in order. *)
Fixpoint written (evs : list event) : list Response.t :=
  match evs with
  | [] => []
  | EvWrite res _ :: evs' => res :: written evs'
  | _ :: evs' => written evs'
  end.

(** ** Vocabulary of the statements *)

(** [c] occurs in [s]. *)
Fixpoint occurs (c : ascii) (s : string) : bool :=
  match s with
  | EmptyString => false
  | String d s' => if decide (d = c) then true else occurs c s'
  end.

(** What is left of [parseLines] once the start line has its three fields. *)
Definition afterStartLine (key : string → string) (method url proto : string)
    (headers : list string) (b : bool) : outcome (option Request.t * bool * option error) :=
  if negb (validMethod method)
  then Ret (None, b, Some (fmt_Errorf "Bad Method."))
  else
    okURL ← validURL url;
    if negb okURL
    then Ret (None, b, Some (fmt_Errorf "URL doesn't start with slash."))
    else if negb (validProto proto)
    then Ret (None, b, Some (fmt_Errorf "Bad Proto."))
    else
      match headerLoop key headers (mkVars (Request.mk method url proto ∅ "" false) 0 ∅) with
      | inl e => Ret (None, b, Some e)
      | inr vs =>
          if decide (haveHost vs = 0)
          then Ret (None, b, Some (fmt_Errorf "Missing Host."))
          else Ret (Some (setHeader (headerMap vs) (req vs)), b, None)
      end.

Definition finished {A} (m : outcome A) : Prop := m ≠ OutOfFuel.

(** The response has a header under [k]. *)
Definition carries (res : Response.t) (k : string) : Prop :=
  is_Some (Response.Header res !! k).

(** The invariant of the responses of section 3 of the specification. *)
Definition wellFormed (res : Response.t) : Prop :=
  (Response.StatusCode res = statusOK →
     carries res "Date" ∧ carries res "Last-Modified"
     ∧ carries res "Content-Type" ∧ carries res "Content-Length")
  ∧ (Response.StatusCode res = fileNotFound
     ∨ Response.StatusCode res = statusMethodNotAllowed →
     Response.FilePath res = "")
  ∧ (Response.StatusCode res = statusMethodNotAllowed →
     Response.Header res !! "Connection" = Some "close").

(** Every attempt to read a request comes right after the deadline was armed
    with the five seconds. *)
Definition armedBeforeEveryRead (evs : list event) : Prop :=
  ∀ i, evs !! i = Some EvReadRequest →
       ∃ j, i = S j ∧ evs !! j = Some (EvSetReadDeadline 5).

(** The wire format of section 6 of the specification. *)
Definition statusLine (res : Response.t) : string :=
  Response.Proto res +:+ " " +:+ pretty (Response.StatusCode res) +:+ " "
  +:+ default "" (statusText !! Response.StatusCode res) +:+ strings.CRLF.

Definition headerLine (res : Response.t) (key : string) : string :=
  key +:+ ": " +:+ default "" (Response.Header res !! key) +:+ strings.CRLF.

Fixpoint concatLines (ls : list string) : string :=
  match ls with
  | [] => ""
  | l :: ls' => l +:+ concatLines ls'
  end.

(** The header lines in the order of their keys, and the blank line. *)
Definition headerBlock (res : Response.t) : string :=
  concatLines (headerLine res <$> sort.Strings (keyArray res)) +:+ strings.CRLF.

(** The bytes of the body: none without a file path, else the file. *)
Definition bodyOf (os : OS) (res : Response.t) : error + string :=
  if decide (Response.FilePath res = "") then inr "" else ReadFile os (Response.FilePath res).

(** ** More of the package, and more vocabulary *)

(** [contains(s, str)] *)
Fixpoint contains (s : list string) (str : string) : bool :=
  match s with
  | [] => false
  | v :: s' => if decide (v = str) then true else contains s' str
  end.

(** A letter, a digit or the hyphen. *)
Definition keyByte (c : ascii) : Prop :=
  let n := Ascii.N_of_ascii c in
  (97 ≤ n ≤ 122 ∨ 65 ≤ n ≤ 90 ∨ 48 ≤ n ≤ 57 ∨ n = 45)%N.

(** Every byte of [s] has the property. *)
Fixpoint allBytes (P : ascii → Prop) (s : string) : Prop :=
  match s with
  | EmptyString => True
  | String c s' => P c ∧ allBytes P s'
  end.

(** [n] spaces. *)
Fixpoint spaces (n : nat) : string :=
  match n with
  | O => ""
  | S n' => String " " (spaces n')
  end.

Fixpoint lastByte (s : string) : option ascii :=
  match s with
  | EmptyString => None
  | String c EmptyString => Some c
  | String _ s' => lastByte s'
  end.

(** The log of a turn, by the way the turn ends. *)
Definition turnShape (t : turn) (evs : list event) : Prop :=
  match t with
  | Continue =>
      ∃ res err, evs = [EvSetReadDeadline 5; EvReadRequest; EvWrite res err]
                 ∧ Response.StatusCode res ≠ statusMethodNotAllowed
  | Return =>
      evs = [EvSetReadDeadline 5; EvClose]
      ∨ evs = [EvSetReadDeadline 5; EvReadRequest; EvClose]
      ∨ ∃ res err, evs = [EvSetReadDeadline 5; EvReadRequest; EvWrite res err; EvClose]
  | Crash _ | Unfinished => evs = [EvSetReadDeadline 5; EvReadRequest]
  end.


(** * Properties *)

(** ** The loops finish *)

Lemma ReadLine_from_shorter line br l e br' :
  ReadLine_from line br = (l, e, br') →
  (length br' ≤ length br)%nat ∧ (br ≠ [] → (length br' < length br)%nat).
Proof.
  revert line. induction br as [|i br IH]; intros line H; simpl in H.
  - inversion H; subst. split; [done|congruence].
  - destruct i as [c|e0].
    + assert (∀ line0, ReadLine_from line0 br = (l, e, br') →
                (length br' < S (length br))%nat) as Hrec.
      { intros line0 H0. apply IH in H0 as [H0 _]. lia. }
      repeat case_match; simplify_eq; simpl;
        try (apply Hrec in H); split; intros; lia.
    + inversion H; subst. simpl. split; intros; lia.
Qed.

Lemma lineLoop_empty fuel e br acc :
  lineLoop fuel "" e br acc = (Some (inr acc), br).
Proof. by destruct fuel. Qed.

Lemma lineLoop_fuel fuel t e br acc :
  (length br < fuel)%nat → (lineLoop fuel t e br acc).1 ≠ None.
Proof.
  revert t e br acc. induction fuel as [|fuel IH]; intros t e br acc Hlen; [lia|].
  simpl. case_decide; [|done].
  destruct e; [done|].
  destruct (ReadLine br) as [[t' e'] br'] eqn:E.
  destruct br as [|i br].
  - simpl in E. inversion E; subst. by rewrite lineLoop_empty.
  - apply ReadLine_from_shorter in E as [_ E]. apply IH.
    specialize (E ltac:(done)). simpl in *. lia.
Qed.

Lemma lineLoop_shorter fuel t e br acc :
  (length (lineLoop fuel t e br acc).2 ≤ length br)%nat.
Proof.
  revert t e br acc. induction fuel as [|fuel IH]; intros t e br acc; simpl.
  - repeat case_match; simpl; lia.
  - case_decide; [|simpl; lia]. destruct e; [simpl; lia|].
    destruct (ReadLine br) as [[t' e'] br'] eqn:E.
    apply ReadLine_from_shorter in E as [E _].
    specialize (IH t' e' br' (acc ++ [t])). lia.
Qed.

Lemma readLines_finishes br : (readLines br).1 ≠ None.
Proof.
  unfold readLines. destruct (ReadLine br) as [[t e] br'] eqn:E.
  apply lineLoop_fuel. apply ReadLine_from_shorter in E as [E _]. lia.
Qed.

Lemma readLines_shorter br :
  (length (readLines br).2 ≤ length br)%nat ∧
  (br ≠ [] → (length (readLines br).2 < length br)%nat).
Proof.
  unfold readLines. destruct (ReadLine br) as [[t e] br'] eqn:E.
  apply ReadLine_from_shorter in E as [E1 E2].
  pose proof (lineLoop_shorter (S (length br)) t e br' []).
  split; [lia|]. intros Hne. specialize (E2 Hne). lia.
Qed.


(** Only the two loops can be left unfinished; nothing else is. *)


Lemma finished_bind {A B} (f : A → outcome B) (m : outcome A) :
  finished m → (∀ a, finished (f a)) → finished (m ≫= f).
Proof. destruct m; unfold finished; simpl; intros; auto. Qed.

Lemma index_finished {A} (l : list A) i : finished (index l i).
Proof. unfold index, finished. repeat case_match; done. Qed.

Lemma byteAt_finished s i : finished (byteAt s i).
Proof. unfold byteAt, finished. repeat case_match; done. Qed.

Lemma validURL_finished u : finished (validURL u).
Proof.
  unfold validURL. apply finished_bind; [apply byteAt_finished|].
  intros a. unfold finished. case_decide; done.
Qed.

Lemma parseLines_finished key lines b : finished (parseLines key lines b).
Proof.
  unfold parseLines.
  apply finished_bind; [apply index_finished|]. intros line0.
  destruct (parseStartLine line0) as [startLine [e|]]; [done|].
  do 3 (apply finished_bind; [apply index_finished|]; intros ?).
  case_match; [done|].
  apply finished_bind; [apply validURL_finished|]. intros ok.
  unfold finished. repeat case_match; done.
Qed.

Lemma ReadRequest_finished key br : finished (ReadRequest key br).1.
Proof.
  unfold ReadRequest. destruct (Peek1 br) as [[e|] br0] eqn:EP; [done|].
  pose proof (readLines_finishes br0) as Hfin.
  destruct (readLines br0) as [[[e|lines]|] br1]; simpl in *; try done.
  apply parseLines_finished.
Qed.

Lemma ReadRequest_consumes key br req b br' :
  ReadRequest key br = (Ret (Some req, b, None), br') →
  (length br' < length br)%nat.
Proof.
  unfold ReadRequest. destruct br as [|[c|e] br0]; simpl; try done.
  pose proof (readLines_shorter (Byte c :: br0)) as [_ Hlt].
  destruct (readLines (Byte c :: br0)) as [[[e|lines]|] br1]; simpl in *;
    intros H; inversion H; subst; apply Hlt; done.
Qed.

Section SessionFinishes.

Variable CanonicalHeaderKey : string → string.
Variable MIMETypeByExtension : string → string.
Variable FormatTime : Z → string.
Variable Sprint_Time : Z → string.
Variable os : OS.

Local Abbreviation handleOK := (HandleOK MIMETypeByExtension FormatTime Sprint_Time os).
Local Abbreviation handleGood := (HandleGoodRequest MIMETypeByExtension FormatTime Sprint_Time os).
Local Abbreviation turn_of := (turnOf CanonicalHeaderKey MIMETypeByExtension FormatTime Sprint_Time os).
Local Abbreviation session := (sessionLoop CanonicalHeaderKey MIMETypeByExtension FormatTime Sprint_Time os).

Lemma rootLoop_finished i root_split url_split :
  finished (rootLoop i root_split url_split).
Proof.
  revert i. induction root_split as [|v rest IH]; intros i; simpl; [done|].
  apply finished_bind; [apply index_finished|]. intros u.
  case_decide; [done|apply IH].
Qed.

Lemma HandleOK_finished res req path : finished (handleOK res req path).
Proof.
  unfold HandleOK. apply finished_bind; [apply index_finished|]. intros part.
  unfold finished. repeat case_match; done.
Qed.

Lemma HandleGoodRequest_finished s req : finished (handleGood s req).
Proof.
  unfold HandleGoodRequest.
  apply finished_bind; [apply byteAt_finished|]. intros last.
  apply finished_bind; [apply rootLoop_finished|]. intros differs.
  destruct differs; [done|]. case_match; [done|].
  unfold exists_. destruct (Stat os _); [apply HandleOK_finished|done].
Qed.

Lemma turnOf_finished s c : (turn_of s c).1.1 ≠ Unfinished.
Proof.
  unfold turnOf. destruct (armFails c) as [|[] fs]; simpl; try done.
  all: match goal with |- context [ReadRequest ?k ?br] =>
         pose proof (ReadRequest_finished k br) as Hfin;
         destruct (ReadRequest k br) as [[[[req b] err]| |] br'] end;
    simpl in *; try done.
  all: repeat (case_match; simpl; try done).
  all: match goal with H : handleGood _ _ = OutOfFuel |- _ =>
         by apply HandleGoodRequest_finished in H end.
Qed.

Lemma turnOf_Continue_shorter s c evs c' :
  turn_of s c = (Continue, evs, c') →
  (length (reader c') < length (reader c))%nat.
Proof.
  unfold turnOf. intros H.
  assert (∀ fs, (let c0 := mkConn (reader c) fs (writer c) in
            let '(r, br) := ReadRequest CanonicalHeaderKey (reader c0) in
            let c1 := setReader br c0 in
            match r with
            | Ret (Some req, b, None) => (length br < length (reader c))%nat
            | _ => True
            end)) as Hcons.
  { intros fs. simpl.
    destruct (ReadRequest CanonicalHeaderKey (reader c)) as [[[[[req|] b] [err|]]| |] br'] eqn:E;
      try done. by apply ReadRequest_consumes in E. }
  destruct (armFails c) as [|[] fs]; simpl in *; try done.
  - specialize (Hcons []). simpl in Hcons.
    destruct (ReadRequest CanonicalHeaderKey (reader c)) as [[[[[req|] b] [err|]]| |] br'];
      simpl in *; repeat case_match; simplify_eq; simpl in *; done.
  - specialize (Hcons fs). simpl in Hcons.
    destruct (ReadRequest CanonicalHeaderKey (reader c)) as [[[[[req|] b] [err|]]| |] br'];
      simpl in *; repeat case_match; simplify_eq; simpl in *; done.
Qed.

Lemma sessionLoop_finished fuel s c :
  (length (reader c) < fuel)%nat → (session fuel s c).1.1 ≠ Unfinished.
Proof.
  revert c. induction fuel as [|fuel IH]; intros c Hlen; [lia|].
  simpl. pose proof (turnOf_finished s c) as Hfin.
  destruct (turn_of s c) as [[t evs] c'] eqn:E.
  destruct t; simpl in *; try done.
  apply turnOf_Continue_shorter in E.
  specialize (IH c' ltac:(lia)).
  destruct (session fuel s c') as [[t' evs'] c'']. done.
Qed.

(** The session over a finite input comes to an end: it returns or it
    panics. *)
Lemma HandleConnection_finished s c :
  (HandleConnection CanonicalHeaderKey MIMETypeByExtension FormatTime Sprint_Time
                    os s c).1.1 ≠ Unfinished.
Proof. apply sessionLoop_finished. lia. Qed.

End SessionFinishes.

(** ** The request parser *)


Lemma Cut_Some s sep a b :
  strings.Cut s sep = Some (a, b) →
  s = a +:+ String sep b ∧ occurs sep a = false.
Proof.
  revert a b. induction s as [|c s IH]; intros a b; simpl; [done|].
  case_decide as Hc.
  - intros [= <- <-]. by subst.
  - destruct (strings.Cut s sep) as [[a' b']|]; [|done].
    intros [= <- <-]. destruct (IH a' b' eq_refl) as [-> Ha].
    simpl. by rewrite decide_False.
Qed.

Lemma Cut_None s sep : strings.Cut s sep = None ↔ occurs sep s = false.
Proof.
  induction s as [|c s IH]; simpl; [done|].
  case_decide; [done|].
  destruct (strings.Cut s sep) as [[a b]|]; split; intros H'; try done.
  - by apply IH in H'.
  - by apply IH.
Qed.

Lemma Cut_app a sep b :
  occurs sep a = false → strings.Cut (a +:+ String sep b) sep = Some (a, b).
Proof.
  induction a as [|c a IH]; simpl.
  - by rewrite decide_True.
  - case_decide; [done|]. intros Ha. by rewrite IH.
Qed.

(** The three fields of a well-formed start line come apart as written. *)
Lemma SplitN_start_line method url proto :
  occurs " " method = false → occurs " " url = false →
  strings.SplitN (method +:+ " " +:+ url +:+ " " +:+ proto) " " 3 = [method; url; proto].
Proof.
  intros Hm Hu.
  change (strings.splitCuts 2 (method +:+ String " " (url +:+ String " " proto)) " "
          = [method; url; proto]).
  cbn [strings.splitCuts]. rewrite Cut_app by done. rewrite Cut_app by done. done.
Qed.

(** Three fields come from a line with two spaces, the first two fields
    holding none. *)
Lemma SplitN_three line a b c :
  strings.SplitN line " " 3 = [a; b; c] →
  line = a +:+ " " +:+ b +:+ " " +:+ c ∧ occurs " " a = false ∧ occurs " " b = false.
Proof.
  unfold strings.SplitN. simpl.
  destruct (strings.Cut line " ") as [[a' r]|] eqn:E1; [|done].
  destruct (strings.Cut r " ") as [[b' r']|] eqn:E2; [|done].
  intros [= <- <- <-].
  apply Cut_Some in E1 as [-> ?]. apply Cut_Some in E2 as [-> ?]. done.
Qed.

Lemma SplitN_length line : (1 ≤ length (strings.SplitN line " " 3) ≤ 3)%nat.
Proof.
  unfold strings.SplitN. simpl.
  destruct (strings.Cut line " ") as [[a' r]|]; simpl; [|lia].
  destruct (strings.Cut r " ") as [[b' r']|]; simpl; lia.
Qed.

Lemma ReadRequest_unfold key br c br0 :
  br = Byte c :: br0 →
  ReadRequest key br =
    match readLines br with
    | (None, br') => (OutOfFuel, br')
    | (Some (inl e), br') => (Ret (None, true, Some e), br')
    | (Some (inr requestLineArr), br') => (parseLines key requestLineArr true, br')
    end.
Proof. intros ->. reflexivity. Qed.

(** Lines come only from an input that starts with a byte. *)
Lemma readLines_cons br line0 lines br' :
  readLines br = (Some (inr (line0 :: lines)), br') → ∃ c br0, br = Byte c :: br0.
Proof.
  destruct br as [|[c|e] br0]; [| by eauto |]; unfold readLines; simpl; done.
Qed.

Lemma parseLines_nil key b :
  parseLines key [] b = Ret (None, b, Some (fmt_Errorf "Bad Method.")).
Proof. reflexivity. Qed.


Lemma parseLines_three key line0 hdrs b method url proto :
  strings.SplitN line0 " " 3 = [method; url; proto] →
  parseLines key (line0 :: hdrs) b = afterStartLine key method url proto hdrs b.
Proof.
  intros Hs. unfold parseLines, parseStartLine, afterStartLine. simpl.
  rewrite Hs. reflexivity.
Qed.

Lemma parseLines_not_three key line0 hdrs b :
  length (strings.SplitN line0 " " 3) ≠ 3%nat →
  parseLines key (line0 :: hdrs) b
  = Ret (None, b, Some (fmt_Errorf ("Bad start line: "
                          +:+ Sprint_strings (strings.SplitN line0 " " 3)))).
Proof.
  intros Hs. unfold parseLines, parseStartLine. simpl.
  rewrite decide_True by done. reflexivity.
Qed.

Lemma headerLoop_Host key h rest vs v :
  parseHeader key h = ("Host", v, None) →
  headerLoop key (h :: rest) vs
  = headerLoop key rest (mkVars (setHost v (req vs)) 1 (headerMap vs)).
Proof. intros H. simpl. rewrite H. reflexivity. Qed.

Lemma headerLoop_Connection key h rest vs v :
  parseHeader key h = ("Connection", v, None) →
  headerLoop key (h :: rest) vs
  = headerLoop key rest
      (if decide (v = "close")
       then mkVars (setClose true (req vs)) (haveHost vs) (headerMap vs) else vs).
Proof. intros H. simpl. rewrite H. simpl. by case_decide. Qed.

Lemma headerLoop_other key h rest vs k v :
  parseHeader key h = (k, v, None) → k ≠ "Host" → k ≠ "Connection" →
  headerLoop key (h :: rest) vs
  = headerLoop key rest (mkVars (req vs) (haveHost vs) (<[k := v]> (headerMap vs))).
Proof.
  intros H ??. simpl. rewrite H. by rewrite !decide_False.
Qed.

Lemma headerLoop_error key h rest vs k v e :
  parseHeader key h = (k, v, Some e) → headerLoop key (h :: rest) vs = inl e.
Proof. intros H. simpl. by rewrite H. Qed.

Lemma afterStartLine_valid key url hdrs b :
  validURL url = Ret true →
  afterStartLine key "GET" url "HTTP/1.1" hdrs b =
    match headerLoop key hdrs (mkVars (Request.mk "GET" url "HTTP/1.1" ∅ "" false) 0 ∅) with
    | inl e => Ret (None, b, Some e)
    | inr vs =>
        if decide (haveHost vs = 0)
        then Ret (None, b, Some (fmt_Errorf "Missing Host."))
        else Ret (Some (setHeader (headerMap vs) (req vs)), b, None)
    end.
Proof. intros Hu. unfold afterStartLine. rewrite Hu. reflexivity. Qed.

(** C3, as the code has it: the line loop of [ReadRequest] tests the line
    before the error, so a read that fails at a line boundary ends the loop
    like the empty line would.  A request whose header section was never
    terminated, because the next read failed with whatever transport error [e]
    or met the end of the stream, is returned as successfully parsed with a
    nil error. *)
Theorem ReadRequest_success_without_terminator key e tl :
  key "Host" = "Host" →
  let received := bytes (Demo.lines ["GET / HTTP/1.1"; "Host: x"]) in
  let parsed := Request.mk "GET" "/" "HTTP/1.1" ∅ "x" false in
  ReadRequest key (received ++ Fail e :: tl) = (Ret (Some parsed, true, None), tl)
  ∧ ReadRequest key received = (Ret (Some parsed, true, None), []).
Proof.
  intros Hkey received parsed.
  assert (parseLines key ["GET / HTTP/1.1"; "Host: x"] true
          = Ret (Some parsed, true, None)) as Hparse.
  { rewrite (parseLines_three _ _ _ _ "GET" "/" "HTTP/1.1") by reflexivity.
    rewrite afterStartLine_valid by reflexivity.
    rewrite (headerLoop_Host _ _ _ _ "x"); [reflexivity|].
    transitivity (key "Host", "x", @None error); [reflexivity|by rewrite Hkey]. }
  split.
  - erewrite ReadRequest_unfold by reflexivity.
    assert (readLines (received ++ Fail e :: tl)
            = (Some (inr ["GET / HTTP/1.1"; "Host: x"]), tl)) as ->
      by (vm_compute; reflexivity).
    by rewrite Hparse.
  - erewrite ReadRequest_unfold by reflexivity.
    assert (readLines received = (Some (inr ["GET / HTTP/1.1"; "Host: x"]), [])) as ->
      by (vm_compute; reflexivity).
    by rewrite Hparse.
Qed.

Lemma ReadRequest_success_without_terminator_witness :
  Demo.CanonicalHeaderKey "Host" = "Host" ∧
  ReadRequest Demo.CanonicalHeaderKey
    (bytes (Demo.lines ["GET / HTTP/1.1"; "Host: x"]) ++ [Fail (net_Error true)])
  = (Ret (Some (Request.mk "GET" "/" "HTTP/1.1" ∅ "x" false), true, None), []).
Proof.
  split; [reflexivity|].
  apply (ReadRequest_success_without_terminator
           Demo.CanonicalHeaderKey (net_Error true) []).
  reflexivity.
Defined.

(** Any start line that opens with [GET] and two spaces has an empty second
    field: [validURL] indexes its first byte and panics. *)
Lemma parseLines_empty_URL key rest hdrs b :
  parseLines key (("GET  " +:+ rest) :: hdrs) b = Panic IndexOutOfRange.
Proof.
  rewrite (parseLines_three _ _ _ _ "GET" "" rest); [reflexivity|].
  unfold strings.SplitN. simpl. reflexivity.
Qed.

(** C4, as the code has it: the start line [GET  HTTP/1.1], with two
    consecutive spaces, splits into three fields of which the second is empty;
    the method passes, and [validURL] then indexes byte 0 of the empty URL.
    [ReadRequest] panics instead of returning a malformed-request error, for
    this request and for every start line that opens with [GET] and two
    spaces; the session ends in the panic and no 400 response is written. *)
Theorem ReadRequest_two_spaces_panics key rest hdrs b tl :
  parseLines key (("GET  " +:+ rest) :: hdrs) b = Panic IndexOutOfRange
  ∧ ReadRequest key (bytes (Demo.lines ["GET  HTTP/1.1"; "Host: x"; ""]) ++ tl)
    = (Panic IndexOutOfRange, tl)
  ∧ (let run := Demo.handleConnection
                  (Demo.conn (bytes (Demo.lines ["GET  HTTP/1.1"; "Host: x"; ""]))) in
     run.1.1 = Crash IndexOutOfRange ∧ written run.1.2 = []).
Proof.
  split; [apply parseLines_empty_URL|]. split; [|by vm_compute].
  erewrite ReadRequest_unfold by reflexivity.
  assert (readLines (bytes (Demo.lines ["GET  HTTP/1.1"; "Host: x"; ""]) ++ tl)
          = (Some (inr ["GET  HTTP/1.1"; "Host: x"]), tl)) as ->
    by (vm_compute; reflexivity).
  by rewrite (parseLines_empty_URL key "HTTP/1.1").
Qed.

(** The part of C4 the code does keep: a start line is accepted only in the
    form [GET <URL> HTTP/1.1] with a URL that starts with a slash and holds no
    space; every other start line ends in a malformed-request error, the ones
    with an empty second field after [GET] apart, which panic. *)
Lemma parseLines_start_line_cases key line0 hdrs b :
  (∃ url, line0 = "GET " +:+ url +:+ " HTTP/1.1"
          ∧ strings.HasPrefix url "/" = true ∧ occurs " " url = false)
  ∨ (∃ rest, line0 = "GET  " +:+ rest
             ∧ parseLines key (line0 :: hdrs) b = Panic IndexOutOfRange)
  ∨ (∃ msg, parseLines key (line0 :: hdrs) b = Ret (None, b, Some (fmt_Errorf msg))).
Proof.
  destruct (decide (length (strings.SplitN line0 " " 3) = 3%nat)) as [H3|H3].
  2:{ right; right. eexists. by apply parseLines_not_three. }
  destruct (strings.SplitN line0 " " 3) as [|m [|u [|p [|? ?]]]] eqn:Hs; try done.
  apply SplitN_three in Hs as Hline. destruct Hline as (-> & Hm & Hu).
  rewrite (parseLines_three _ _ _ _ m u p Hs).
  unfold afterStartLine, validMethod, validProto.
  case_bool_decide as Hmeth; simpl; [|right; right; eauto]. subst m.
  destruct u as [|c u].
  { right; left. exists p. done. }
  unfold validURL, byteAt. simpl. case_decide as Hc; simpl.
  { right; right; eauto. }
  case_bool_decide as Hp; simpl; [|right; right; eauto].
  left. exists (String c u). subst p. split; [reflexivity|]. split; [|done].
  simpl. destruct (decide (c = "/"%char)) as [->|Hne]; [by destruct u|].
  exfalso. apply Hne. by injection Hc.
Qed.

(** *** The header loop *)

(** What the loop has done to its variables when it ends without an error. *)
Lemma headerLoop_inv key hdrs vs0 vs :
  headerLoop key hdrs vs0 = inr vs →
  (Request.Close (req vs) = true ↔
     Request.Close (req vs0) = true
     ∨ ∃ h, h ∈ hdrs ∧ parseHeader key h = ("Connection", "close", None))
  ∧ ((∃ pre h post, hdrs = pre ++ h :: post
        ∧ parseHeader key h = ("Host", Request.Host (req vs), None)
        ∧ (∀ h', h' ∈ post → (parseHeader key h').1.1 ≠ "Host")
        ∧ haveHost vs = 1)
     ∨ ((∀ h', h' ∈ hdrs → (parseHeader key h').1.1 ≠ "Host")
        ∧ Request.Host (req vs) = Request.Host (req vs0)
        ∧ haveHost vs = haveHost vs0))
  ∧ headerMap vs !! "Host" = headerMap vs0 !! "Host"
  ∧ headerMap vs !! "Connection" = headerMap vs0 !! "Connection"
  ∧ Request.Method (req vs) = Request.Method (req vs0)
  ∧ Request.URL (req vs) = Request.URL (req vs0)
  ∧ Request.Proto (req vs) = Request.Proto (req vs0).
Proof.
  revert vs0. induction hdrs as [|h rest IH]; intros vs0 Hloop.
  { simpl in Hloop. injection Hloop as <-.
    split; [split; [auto|intros [?|(h & Hh & _)]; [done|by apply elem_of_nil in Hh]]|].
    split; [right; split; [intros h' Hh'; by apply elem_of_nil in Hh'|done]|done]. }
  destruct (parseHeader key h) as [[k v] [e|]] eqn:Hh.
  { by rewrite (headerLoop_error _ _ _ _ _ _ _ Hh) in Hloop. }
  destruct (decide (k = "Host")) as [->|HnH].
  { rewrite (headerLoop_Host _ _ _ _ _ Hh) in Hloop.
    apply IH in Hloop as (HC & HH & Hm1 & Hm2 & Hme & Hu & Hp). simpl in *.
    split.
    { rewrite HC. split; intros [?|(h' & Hin & Hp')]; auto.
      - right. exists h'. split; [by apply elem_of_cons; right|done].
      - apply elem_of_cons in Hin as [->|Hin]; [congruence|]. right; eauto. }
    split; [|done]. left.
    destruct HH as [(pre & h' & post & -> & Hh' & Hpost & Hhave)|(Hnone & HHost & Hhave)].
    - exists (h :: pre), h', post. done.
    - exists [], h, rest. rewrite HHost. done. }
  destruct (decide (k = "Connection")) as [->|HnC].
  { rewrite (headerLoop_Connection _ _ _ _ _ Hh) in Hloop.
    apply IH in Hloop as (HC & HH & Hm1 & Hm2 & Hme & Hu & Hp).
    assert (∀ h', h' ∈ h :: rest → h' = h ∨ h' ∈ rest) as Hcons
      by (intros h'; apply elem_of_cons).
    split.
    { rewrite HC. case_decide as Hv; simpl.
      - subst v. split; [intros _|auto].
        right. exists h. split; [apply elem_of_cons; by left|done].
      - split; intros [?|(h' & Hin & Hp')]; auto.
        + right. exists h'. split; [by apply elem_of_cons; right|done].
        + apply Hcons in Hin as [->|Hin]; [congruence|]. right; eauto. }
    split; [|by case_decide].
    destruct HH as [(pre & h' & post & -> & Hh' & Hpost & Hhave)|(Hnone & HHost & Hhave)].
    - left. exists (h :: pre), h', post. done.
    - right. split; [|by case_decide].
      intros h' Hin. apply Hcons in Hin as [->|Hin]; [by rewrite Hh|by apply Hnone]. }
  rewrite (headerLoop_other _ _ _ _ _ _ Hh HnH HnC) in Hloop.
  apply IH in Hloop as (HC & HH & Hm1 & Hm2 & Hme & Hu & Hp). simpl in *.
  rewrite lookup_insert_ne in Hm1 by done. rewrite lookup_insert_ne in Hm2 by done.
  split.
  { rewrite HC. split; intros [?|(h' & Hin & Hp')]; auto.
    - right. exists h'. split; [by apply elem_of_cons; right|done].
    - apply elem_of_cons in Hin as [->|Hin]; [congruence|]. right; eauto. }
  split; [|done].
  destruct HH as [(pre & h' & post & -> & Hh' & Hpost & Hhave)|(Hnone & HHost & Hhave)].
  - left. exists (h :: pre), h', post. done.
  - right. split; [|done].
    intros h' Hin. apply elem_of_cons in Hin as [->|Hin]; [by rewrite Hh|by apply Hnone].
Qed.

Lemma afterStartLine_success key m u p hdrs b r b' :
  afterStartLine key m u p hdrs b = Ret (Some r, b', None) →
  ∃ vs, headerLoop key hdrs (mkVars (Request.mk m u p ∅ "" false) 0 ∅) = inr vs
        ∧ haveHost vs ≠ 0 ∧ r = setHeader (headerMap vs) (req vs) ∧ b' = b
        ∧ m = "GET" ∧ p = responseProto ∧ validURL u = Ret true.
Proof.
  unfold afterStartLine, validMethod, validProto.
  case_bool_decide as Hm; simpl; [|done].
  destruct (validURL u) as [[]| |] eqn:Hu; simpl; try done.
  case_bool_decide as Hp; simpl; [|done].
  destruct (headerLoop _ _ _) as [e|vs] eqn:Hl; [done|].
  case_decide; [done|]. intros [= <- <-]. eauto 10.
Qed.

Lemma parseLines_success key lines b r b' :
  parseLines key lines b = Ret (Some r, b', None) →
  ∃ line0 hdrs m u p,
    lines = line0 :: hdrs ∧ strings.SplitN line0 " " 3 = [m; u; p]
    ∧ afterStartLine key m u p hdrs b = Ret (Some r, b', None).
Proof.
  destruct lines as [|line0 hdrs]; [by rewrite parseLines_nil|].
  destruct (decide (length (strings.SplitN line0 " " 3) = 3%nat)) as [H3|H3].
  2:{ by rewrite parseLines_not_three. }
  destruct (strings.SplitN line0 " " 3) as [|m [|u [|p [|? ?]]]] eqn:Hs; try done.
  rewrite (parseLines_three _ _ _ _ m u p Hs). eauto 10.
Qed.

Lemma ReadRequest_success key br r b br' :
  ReadRequest key br = (Ret (Some r, b, None), br') →
  ∃ lines, readLines br = (Some (inr lines), br')
           ∧ parseLines key lines true = Ret (Some r, b, None).
Proof.
  destruct br as [|[c|e] br0]; try done.
  erewrite ReadRequest_unfold by done.
  destruct (readLines _) as [[[e|lines]|] br1]; try done.
  intros [= H <-]. eauto.
Qed.

(** C8: for a successfully parsed request, the close flag is set exactly when
    some header line of the request has the canonical key [Connection] and the
    value [close], compared byte for byte; the host field holds the value of
    the (last) header line with the canonical key [Host]; and the generic header
    map has no entry under [Host] and none under [Connection]. *)
Theorem ReadRequest_special_headers key br r b br' :
  ReadRequest key br = (Ret (Some r, b, None), br') →
  ∃ line0 hdrs,
    readLines br = (Some (inr (line0 :: hdrs)), br')
    ∧ (Request.Close r = true ↔
         ∃ h, h ∈ hdrs ∧ parseHeader key h = ("Connection", "close", None))
    ∧ (∃ pre h post, hdrs = pre ++ h :: post
         ∧ parseHeader key h = ("Host", Request.Host r, None)
         ∧ ∀ h', h' ∈ post → (parseHeader key h').1.1 ≠ "Host")
    ∧ Request.Header r !! "Host" = None
    ∧ Request.Header r !! "Connection" = None.
Proof.
  intros H. apply ReadRequest_success in H as (lines & Hread & Hparse).
  apply parseLines_success in Hparse as (line0 & hdrs & m & u & p & -> & Hs & Hafter).
  apply afterStartLine_success in Hafter as (vs & Hloop & Hhave & -> & _).
  apply headerLoop_inv in Hloop as (HC & HH & Hm1 & Hm2 & _). simpl in *.
  exists line0, hdrs. split; [done|]. split.
  { rewrite HC. split; [intros [?|?]; done|auto]. }
  split.
  { destruct HH as [(pre & h & post & ? & ? & ? & _)|(_ & _ & ?)]; [|done].
    exists pre, h, post. done. }
  rewrite Hm1, Hm2. done.
Qed.

Lemma ReadRequest_special_headers_witness :
  ∃ line0 hdrs,
    readLines Demo.pipelined = (Some (inr (line0 :: hdrs)), [])
    ∧ (Request.Close Demo.parsed = true ↔
         ∃ h, h ∈ hdrs
              ∧ parseHeader Demo.CanonicalHeaderKey h = ("Connection", "close", None))
    ∧ (∃ pre h post, hdrs = pre ++ h :: post
         ∧ parseHeader Demo.CanonicalHeaderKey h = ("Host", Request.Host Demo.parsed, None)
         ∧ ∀ h', h' ∈ post → (parseHeader Demo.CanonicalHeaderKey h').1.1 ≠ "Host")
    ∧ Request.Header Demo.parsed !! "Host" = None
    ∧ Request.Header Demo.parsed !! "Connection" = None.
Proof.
  apply (ReadRequest_special_headers Demo.CanonicalHeaderKey Demo.pipelined
           Demo.parsed true []).
  vm_compute. reflexivity.
Defined.

Lemma headerLoop_no_Host key hdrs vs0 :
  (∀ h, h ∈ hdrs → ∃ k v, parseHeader key h = (k, v, None) ∧ k ≠ "Host") →
  ∃ vs, headerLoop key hdrs vs0 = inr vs ∧ haveHost vs = haveHost vs0.
Proof.
  revert vs0. induction hdrs as [|h rest IH]; intros vs0 Hall; [by eexists|].
  destruct (Hall h) as (k & v & Hh & Hk); [apply elem_of_cons; by left|].
  assert (∀ h', h' ∈ rest → ∃ k v, parseHeader key h' = (k, v, None) ∧ k ≠ "Host")
    as Hrest by (intros h' Hin; apply Hall, elem_of_cons; by right).
  destruct (decide (k = "Connection")) as [->|HnC].
  - rewrite (headerLoop_Connection _ _ _ _ _ Hh).
    destruct (IH (if decide (v = "close")
                  then mkVars (setClose true (req vs0)) (haveHost vs0) (headerMap vs0)
                  else vs0) Hrest) as (vs & Hl & Hhave).
    exists vs. split; [done|]. rewrite Hhave. by case_decide.
  - rewrite (headerLoop_other _ _ _ _ _ _ Hh Hk HnC).
    destruct (IH (mkVars (req vs0) (haveHost vs0) (<[k:=v]> (headerMap vs0))) Hrest)
      as (vs & Hl & Hhave).
    by exists vs.
Qed.

Lemma validURL_slash url :
  strings.HasPrefix url "/" = true → validURL url = Ret true.
Proof.
  destruct url as [|c u]; [done|]. simpl. case_decide; [subst c|done].
  intros _. reflexivity.
Qed.

Section Session.

Variable CanonicalHeaderKey : string → string.
Variable MIMETypeByExtension : string → string.
Variable FormatTime : Z → string.
Variable Sprint_Time : Z → string.
Variable os : OS.

Local Abbreviation handleOK := (HandleOK MIMETypeByExtension FormatTime Sprint_Time os).
Local Abbreviation handleNotFound := (HandleNotFound FormatTime os).
Local Abbreviation handleBad := (HandleBadRequest FormatTime os).
Local Abbreviation handleBadTimeOut := (HandleBadRequestTimeOut FormatTime os).
Local Abbreviation handleGood :=
  (HandleGoodRequest MIMETypeByExtension FormatTime Sprint_Time os).
Local Abbreviation dispatch_ := (dispatch MIMETypeByExtension FormatTime Sprint_Time os).
Local Abbreviation turn_of :=
  (turnOf CanonicalHeaderKey MIMETypeByExtension FormatTime Sprint_Time os).
Local Abbreviation session :=
  (sessionLoop CanonicalHeaderKey MIMETypeByExtension FormatTime Sprint_Time os).
Local Abbreviation handleConnection :=
  (HandleConnection CanonicalHeaderKey MIMETypeByExtension FormatTime Sprint_Time os).

(** A turn whose deadline could be armed reads and dispatches. *)
Lemma turnOf_armed s c :
  head (armFails c) ≠ Some true →
  turn_of s c =
    dispatch_ s (mkConn (ReadRequest CanonicalHeaderKey (reader c)).2
                        (tail (armFails c)) (writer c))
              (ReadRequest CanonicalHeaderKey (reader c)).1.
Proof.
  intros Harm. unfold turnOf.
  destruct (armFails c) as [|[] fs]; simpl in *; try done;
    by destruct (ReadRequest _ _).
Qed.

(** A malformed request is answered with the 400 response, and the session
    returns. *)
Lemma dispatch_malformed s c b msg :
  dispatch_ s c (Ret (None, b, Some (fmt_Errorf msg))) =
    (Return,
     [EvSetReadDeadline 5; EvReadRequest;
      EvWrite (handleBad Response.zero) (Write os (handleBad Response.zero) (writer c)).1;
      EvClose],
     setWriter (Write os (handleBad Response.zero) (writer c)).2 c).
Proof. unfold dispatch. simpl. by destruct (Write _ _ _). Qed.

(** The part of C9 the code does keep: a request with a well-formed start
    line and header lines that all
    parse, none of them with the canonical key [Host], makes [ReadRequest] fail
    with the malformed-request error "Missing Host."; the session answers it
    with one 400 response and closes the connection. *)
Theorem ReadRequest_missing_Host br url hdrs br' :
  readLines br = (Some (inr (("GET " +:+ url +:+ " HTTP/1.1") :: hdrs)), br') →
  strings.HasPrefix url "/" = true →
  occurs " " url = false →
  (∀ h, h ∈ hdrs → ∃ k v, parseHeader CanonicalHeaderKey h = (k, v, None) ∧ k ≠ "Host") →
  ReadRequest CanonicalHeaderKey br
  = (Ret (None, true, Some (fmt_Errorf "Missing Host.")), br')
  ∧ ∀ s c, reader c = br → head (armFails c) ≠ Some true →
      let res := handleBad Response.zero in
      Response.StatusCode res = 400
      ∧ turn_of s c =
          (Return,
           [EvSetReadDeadline 5; EvReadRequest; EvWrite res (Write os res (writer c)).1;
            EvClose],
           mkConn br' (tail (armFails c)) (Write os res (writer c)).2).
Proof.
  intros Hread Hslash Hspace Hhdrs.
  assert (ReadRequest CanonicalHeaderKey br
          = (Ret (None, true, Some (fmt_Errorf "Missing Host.")), br')) as HRR.
  { destruct (readLines_cons _ _ _ _ Hread) as (c0 & br0 & ->).
    erewrite ReadRequest_unfold by done. rewrite Hread. f_equal.
    rewrite (parseLines_three _ _ _ _ "GET" url "HTTP/1.1").
    2:{ by apply (SplitN_start_line "GET" url "HTTP/1.1"). }
    rewrite afterStartLine_valid by by apply validURL_slash.
    edestruct (headerLoop_no_Host CanonicalHeaderKey hdrs) as (vs & -> & Hhave); [done|].
    simpl in Hhave. by rewrite decide_True. }
  split; [done|]. intros s c <- Harm res. split; [done|].
  rewrite turnOf_armed by done. rewrite HRR. cbn [fst snd].
  by rewrite dispatch_malformed.
Qed.

End Session.

Lemma ReadRequest_missing_Host_witness :
  ReadRequest Demo.CanonicalHeaderKey Demo.hostless
  = (Ret (None, true, Some (fmt_Errorf "Missing Host.")), [])
  ∧ Response.StatusCode <$> written (Demo.handleConnection (Demo.conn Demo.hostless)).1.2
    = [400].
Proof.
  destruct (ReadRequest_missing_Host Demo.CanonicalHeaderKey Demo.MIMETypeByExtension
              Demo.FormatTime Demo.Sprint_Time Demo.os Demo.hostless
              "/index.html" ["Accept: */*"; "Connection: close"] []) as [Hread Hturn].
  - vm_compute. reflexivity.
  - reflexivity.
  - reflexivity.
  - intros h Hh. repeat (apply elem_of_cons in Hh as [->|Hh]).
    + exists "Accept", "*/*". split; [vm_compute; reflexivity|done].
    + exists "Connection", "close". split; [vm_compute; reflexivity|done].
    + by apply elem_of_nil in Hh.
  - split; [exact Hread|].
    destruct (Hturn Demo.server (Demo.conn Demo.hostless) eq_refl) as [_ Heq]; [done|].
    unfold Demo.handleConnection, HandleConnection.
    cbn [sessionLoop]. rewrite Heq. reflexivity.
Defined.

(** C9, as the code has it: the request [GET  HTTP/1.1] without any header
    line, so without a [Host] header, does not fail with a malformed-request
    error.  Its start line has three fields of which the second is empty, the
    method passes, and [validURL] panics on the empty URL before the header
    loop and the check of [haveHost] are reached; the session ends in the
    panic and no 400 response is written.  The same holds whatever header
    lines follow such a start line. *)
Theorem ReadRequest_hostless_request_panics key rest hdrs tl :
  ReadRequest key (bytes (Demo.lines ["GET  HTTP/1.1"; ""]) ++ tl)
  = (Panic IndexOutOfRange, tl)
  ∧ parseLines key (("GET  " +:+ rest) :: hdrs) true = Panic IndexOutOfRange
  ∧ (let run := Demo.handleConnection
                  (Demo.conn (bytes (Demo.lines ["GET  HTTP/1.1"; ""]))) in
     run.1.1 = Crash IndexOutOfRange ∧ written run.1.2 = []).
Proof.
  split; [|split; [apply parseLines_empty_URL|by vm_compute]].
  erewrite ReadRequest_unfold by reflexivity.
  assert (readLines (bytes (Demo.lines ["GET  HTTP/1.1"; ""]) ++ tl)
          = (Some (inr ["GET  HTTP/1.1"]), tl)) as ->
    by (vm_compute; reflexivity).
  by rewrite (parseLines_empty_URL key "HTTP/1.1").
Qed.

(** ** The response builders and the router *)

Section Builders.

Variable MIMETypeByExtension : string → string.
Variable FormatTime : Z → string.
Variable Sprint_Time : Z → string.
Variable os : OS.

Local Abbreviation handleOK := (HandleOK MIMETypeByExtension FormatTime Sprint_Time os).
Local Abbreviation handleNotFound := (HandleNotFound FormatTime os).
Local Abbreviation handleBad := (HandleBadRequest FormatTime os).
Local Abbreviation handleBadTimeOut := (HandleBadRequestTimeOut FormatTime os).
Local Abbreviation handleGood :=
  (HandleGoodRequest MIMETypeByExtension FormatTime Sprint_Time os).

Lemma SplitN_dot_none path :
  occurs "." path = false → strings.SplitN path "." 2 = [path].
Proof.
  intros H. apply Cut_None in H.
  change (strings.splitCuts 1 path "." = [path]).
  cbn [strings.splitCuts]. by rewrite H.
Qed.

Lemma SplitN_dot_some pre post :
  occurs "." pre = false → strings.SplitN (pre +:+ "." +:+ post) "." 2 = [pre; post].
Proof.
  intros H.
  change (strings.splitCuts 1 (pre +:+ String "." post) "." = [pre; post]).
  cbn [strings.splitCuts]. by rewrite Cut_app.
Qed.

Lemma HandleOK_no_dot res req path :
  occurs "." path = false → handleOK res req path = Panic IndexOutOfRange.
Proof. intros H. unfold HandleOK. by rewrite SplitN_dot_none. Qed.

Lemma HandleOK_Ret res req path r :
  handleOK res req path = Ret r →
  ∃ pre post fi,
    path = pre +:+ "." +:+ post ∧ occurs "." pre = false ∧ Stat os path = Some fi
    ∧ Response.StatusCode r = statusOK ∧ Response.FilePath r = path
    ∧ Response.Request r = Some req
    ∧ Response.Header r !! "Content-Type" = Some (MIMETypeByExtension ("." +:+ post))
    ∧ Response.Header r !! "Date" = Some (FormatTime (Now os))
    ∧ Response.Header r !! "Content-Length" = Some (pretty (Size fi))
    ∧ Response.Header r !! "Last-Modified" = Some (Sprint_Time (ModTime fi))
    ∧ Response.Header r !! "Connection"
      = (if Request.Close req then Some "close" else None).
Proof.
  unfold HandleOK.
  change (strings.SplitN path "." 2) with (strings.splitCuts 1 path ".").
  cbn [strings.splitCuts].
  destruct (strings.Cut path ".") as [[pre post]|] eqn:Hcut; [|done].
  apply Cut_Some in Hcut as [-> Hpre]. simpl.
  destruct (Stat os _) as [fi|] eqn:Hstat; [|done].
  intros [= <-]. exists pre, post, fi. simpl.
  repeat split; try done; destruct (Request.Close req); by simplify_map_eq.
Qed.

(** C10: [HandleOK] takes as extension what follows the first dot of the
    resolved path and has a result only for a path that has a dot: for a path
    without one, [strings.SplitN(path, ".", 2)[1]] is out of range and the
    call panics, whether the file exists or not; no default content type is
    used.  With a dot, and the file there, the content type is the one of
    the text from the first dot on.  An existing extensionless file under the
    document root makes the router panic. *)
Theorem HandleOK_extension res req path :
  (occurs "." path = false → handleOK res req path = Panic IndexOutOfRange)
  ∧ (∀ pre post fi,
       path = pre +:+ "." +:+ post → occurs "." pre = false → Stat os path = Some fi →
       ∃ r, handleOK res req path = Ret r
            ∧ Response.Header r !! "Content-Type"
              = Some (MIMETypeByExtension ("." +:+ post)))
  ∧ (∀ r, handleOK res req path = Ret r → occurs "." path = true)
  ∧ Demo.handleGoodRequest (Request.mk "GET" "/README" "HTTP/1.1" ∅ "x" false)
    = Panic IndexOutOfRange.
Proof.
  split; [apply HandleOK_no_dot|]. split; [|split].
  - intros pre post fi -> Hpre Hstat. unfold HandleOK.
    rewrite SplitN_dot_some by done. simpl. rewrite Hstat.
    eexists. split; [done|]. simpl.
    destruct (Request.Close req); by simplify_map_eq.
  - intros r Hr. destruct (occurs "." path) eqn:Hdot; [done|].
    by rewrite HandleOK_no_dot in Hr.
  - vm_compute. reflexivity.
Qed.

End Builders.

Lemma HandleOK_extension_witness :
  ∃ r, HandleOK Demo.MIMETypeByExtension Demo.FormatTime Demo.Sprint_Time Demo.os
         Response.zero Demo.parsed "/var/www/index.html" = Ret r
       ∧ Response.Header r !! "Content-Type" = Some "text/html".
Proof.
  destruct (HandleOK_extension Demo.MIMETypeByExtension Demo.FormatTime Demo.Sprint_Time
              Demo.os Response.zero Demo.parsed "/var/www/index.html")
    as (_ & Hdot & _).
  apply (Hdot "/var/www/index" "html" (mkFileInfo 10 1000)); reflexivity.
Defined.

Section Router.

Variable MIMETypeByExtension : string → string.
Variable FormatTime : Z → string.
Variable Sprint_Time : Z → string.
Variable os : OS.

Local Abbreviation handleOK := (HandleOK MIMETypeByExtension FormatTime Sprint_Time os).
Local Abbreviation handleNotFound := (HandleNotFound FormatTime os).
Local Abbreviation handleBad := (HandleBadRequest FormatTime os).
Local Abbreviation handleBadTimeOut := (HandleBadRequestTimeOut FormatTime os).
Local Abbreviation handleGood :=
  (HandleGoodRequest MIMETypeByExtension FormatTime Sprint_Time os).

Lemma HandleOK_wellFormed res req path r :
  handleOK res req path = Ret r → Response.StatusCode r = statusOK ∧ wellFormed r.
Proof.
  intros H. apply HandleOK_Ret in H
    as (pre & post & fi & _ & _ & _ & Hcode & _ & _ & HT & HD & HL & HM & _).
  split; [done|]. unfold wellFormed, carries. rewrite Hcode, HT, HD, HL, HM.
  split; [eauto|]. split; [intros [|]; done|done].
Qed.

Lemma HandleNotFound_wellFormed res req :
  Response.StatusCode (handleNotFound res req) = fileNotFound
  ∧ Response.FilePath (handleNotFound res req) = ""
  ∧ wellFormed (handleNotFound res req).
Proof. unfold wellFormed. simpl. repeat split; done. Qed.

Lemma HandleBadRequest_wellFormed res :
  Response.StatusCode (handleBad res) = statusMethodNotAllowed
  ∧ Response.FilePath (handleBad res) = ""
  ∧ Response.Header (handleBad res) !! "Connection" = Some "close"
  ∧ wellFormed (handleBad res).
Proof. unfold wellFormed. simpl. repeat split; done. Qed.

Lemma HandleBadRequestTimeOut_wellFormed res :
  Response.StatusCode (handleBadTimeOut res) = statusMethodNotAllowed
  ∧ Response.FilePath (handleBadTimeOut res) = ""
  ∧ Response.Header (handleBadTimeOut res) !! "Connection" = Some "close"
  ∧ wellFormed (handleBadTimeOut res).
Proof. unfold wellFormed. simpl. repeat split; done. Qed.

(** The root loop lets through only a path whose elements start with the
    elements of the document root. *)
Lemma rootLoop_prefix i root_split url_split :
  0 ≤ i → rootLoop i root_split url_split = Ret false →
  root_split `prefix_of` drop (Z.to_nat i) url_split.
Proof.
  revert i. induction root_split as [|v rest IH]; intros i Hi Hloop.
  { apply prefix_nil. }
  simpl in Hloop. unfold index in Hloop. rewrite decide_False in Hloop by lia.
  destruct (url_split !! Z.to_nat i) as [u|] eqn:Hu; [|done]. simpl in Hloop.
  case_decide as Hne; [done|]. subst u.
  apply IH in Hloop; [|lia].
  replace (Z.to_nat (i + 1)) with (S (Z.to_nat i)) in Hloop by lia.
  rewrite (drop_S _ _ _ Hu). by apply prefix_cons.
Qed.

(** What the router answers: the 404 response, or the 200 response of
    [HandleOK] for the cleaned path, which then exists and lies, element by
    element, under the document root as configured. *)
Lemma HandleGoodRequest_Ret s req r :
  handleGood s req = Ret r →
  r = handleNotFound Response.zero req
  ∨ ∃ last,
      byteAt (Request.URL req) (len (Request.URL req) - 1) = Ret last
      ∧ let req_url := if decide (String last "" = "/")
                       then Request.URL req +:+ "index.html" else Request.URL req in
        let path := filepath.Clean (DocRoot s +:+ req_url) in
        handleOK Response.zero req path = Ret r
        ∧ strings.Split (DocRoot s) "/" `prefix_of` strings.Split path "/"
        ∧ RelFails os (DocRoot s) path = false
        ∧ is_Some (Stat os path).
Proof.
  unfold HandleGoodRequest.
  destruct (byteAt _ _) as [last| |] eqn:Hlast; simpl; [|done..].
  destruct (rootLoop _ _ _) as [[]| |] eqn:Hroot; simpl; try done.
  { intros [= <-]. by left. }
  destruct (RelFails os _ _) eqn:Hrel; [intros [= <-]; by left|].
  unfold exists_. destruct (Stat os _) as [fi|] eqn:Hstat; [|intros [= <-]; by left].
  intros Hok. right. exists last. split; [done|]. simpl.
  apply rootLoop_prefix in Hroot; [|done].
  repeat split; eauto.
Qed.

Lemma HandleGoodRequest_wellFormed s req r :
  handleGood s req = Ret r →
  wellFormed r
  ∧ (Response.StatusCode r = statusOK ∨ Response.StatusCode r = fileNotFound)
  ∧ Response.Request r = Some req.
Proof.
  intros H. apply HandleGoodRequest_Ret in H as [->|(last & _ & Hok & _)].
  - split; [apply HandleNotFound_wellFormed|]. split; [by right|done].
  - simpl in Hok. pose proof (HandleOK_wellFormed _ _ _ _ Hok) as [Hc Hwf].
    apply HandleOK_Ret in Hok as (_ & _ & _ & _ & _ & _ & _ & _ & Hreq & _).
    split; [done|]. split; [by left|done].
Qed.

(** The part of C1 the code does keep: a 200 response is only given for the
    cleaned path of the document root joined with the URL, and only when the
    elements of that path start with the elements of the document root. *)
Lemma HandleGoodRequest_200_under_root s req r :
  handleGood s req = Ret r → Response.StatusCode r = statusOK →
  ∃ req_url,
    (req_url = Request.URL req ∨ req_url = Request.URL req +:+ "index.html")
    ∧ Response.FilePath r = filepath.Clean (DocRoot s +:+ req_url)
    ∧ strings.Split (DocRoot s) "/" `prefix_of` strings.Split (Response.FilePath r) "/"
    ∧ is_Some (Stat os (Response.FilePath r)).
Proof.
  intros H Hcode.
  apply HandleGoodRequest_Ret in H as [->|(last & _ & Hok & Hpre & _ & Hstat)]; [done|].
  simpl in *.
  apply HandleOK_Ret in Hok as (_ & _ & _ & _ & _ & _ & _ & -> & _).
  eexists. split; [|done]. case_decide; auto.
Qed.

(** C1, as the code has it: for the document root [/var/www] and the URL
    [/..], the cleaned path [/var] has fewer elements than the document root;
    the root loop indexes element 2 of a two-element slice and the router
    panics.  No 404 response is built, and the session that received the
    request ends in the panic with nothing written. *)
Theorem HandleGoodRequest_above_root_panics addr method proto header host close :
  handleGood (mkServer addr "/var/www")
             (Request.mk method "/.." proto header host close)
  = Panic IndexOutOfRange
  ∧ filepath.Clean ("/var/www" +:+ "/..") = "/var"
  ∧ (let run := Demo.handleConnection
                  (Demo.conn (bytes (Demo.lines ["GET /.. HTTP/1.1"; "Host: x"; ""]))) in
     run.1.1 = Crash IndexOutOfRange ∧ written run.1.2 = []).
Proof.
  split; [reflexivity|]. split; [reflexivity|]. vm_compute. done.
Qed.

End Router.

(** ** The connection session *)

Section SessionProps.

Variable CanonicalHeaderKey : string → string.
Variable MIMETypeByExtension : string → string.
Variable FormatTime : Z → string.
Variable Sprint_Time : Z → string.
Variable os : OS.

Local Abbreviation handleBad := (HandleBadRequest FormatTime os).
Local Abbreviation handleBadTimeOut := (HandleBadRequestTimeOut FormatTime os).
Local Abbreviation handleGood :=
  (HandleGoodRequest MIMETypeByExtension FormatTime Sprint_Time os).
Local Abbreviation dispatch_ := (dispatch MIMETypeByExtension FormatTime Sprint_Time os).
Local Abbreviation turn_of :=
  (turnOf CanonicalHeaderKey MIMETypeByExtension FormatTime Sprint_Time os).
Local Abbreviation session :=
  (sessionLoop CanonicalHeaderKey MIMETypeByExtension FormatTime Sprint_Time os).
Local Abbreviation handleConnection :=
  (HandleConnection CanonicalHeaderKey MIMETypeByExtension FormatTime Sprint_Time os).

(** The shapes the log of one dispatch can have. *)
Lemma dispatch_events s c r :
  let evs := (dispatch_ s c r).1.2 in
  evs = [EvSetReadDeadline 5; EvReadRequest]
  ∨ evs = [EvSetReadDeadline 5; EvReadRequest; EvClose]
  ∨ (∃ res err, wellFormed res
       ∧ Response.StatusCode res = statusMethodNotAllowed
       ∧ evs = [EvSetReadDeadline 5; EvReadRequest; EvWrite res err; EvClose])
  ∨ (∃ req res err tail_, handleGood s req = Ret res
       ∧ (tail_ = [] ∨ tail_ = [EvClose])
       ∧ evs = [EvSetReadDeadline 5; EvReadRequest; EvWrite res err] ++ tail_).
Proof.
  unfold dispatch. destruct r as [[[req b] err]| |]; simpl; auto.
  destruct (isEOF err); simpl; auto.
  destruct (isTimeout err && negb b); simpl; auto.
  destruct (isTimeout err && b); simpl.
  { destruct (Write _ _ _) as [werr w]. simpl. right; right; left.
    eexists _, _. split; [apply HandleBadRequestTimeOut_wellFormed|done]. }
  case_bool_decide; simpl.
  { destruct (Write _ _ _) as [werr w]. simpl. right; right; left.
    eexists _, _. split; [apply HandleBadRequest_wellFormed|done]. }
  destruct req as [req|]; simpl; auto.
  destruct (handleGood s req) as [res| |] eqn:Hres; simpl; auto.
  destruct (Write _ _ _) as [werr w].
  right; right; right. exists req, res, werr.
  destruct (Request.Close req); simpl; eauto 10.
Qed.

Lemma turnOf_events s c :
  let evs := (turn_of s c).1.2 in
  evs = [EvSetReadDeadline 5; EvClose]
  ∨ ∃ c' r, evs = (dispatch_ s c' r).1.2.
Proof.
  unfold turnOf. destruct (armFails c) as [|[] fs]; simpl; auto;
    destruct (ReadRequest _ _) as [r br]; right; eauto.
Qed.

Lemma turnOf_written s c res err :
  EvWrite res err ∈ (turn_of s c).1.2 →
  wellFormed res
  ∧ (Response.StatusCode res = statusOK ∨ Response.StatusCode res = fileNotFound
     ∨ Response.StatusCode res = statusMethodNotAllowed).
Proof.
  destruct (turnOf_events s c) as [->|(c' & r & ->)].
  { intros H. repeat (apply elem_of_cons in H as [H|H]; [done|]).
    by apply elem_of_nil in H. }
  destruct (dispatch_events s c' r)
    as [->|[->|[(res' & err' & Hwf & Hcode & ->)
                |(req & res' & err' & tail_ & Hgood & Htail & ->)]]]; intros H.
  - repeat (apply elem_of_cons in H as [H|H]; [done|]). by apply elem_of_nil in H.
  - repeat (apply elem_of_cons in H as [H|H]; [done|]). by apply elem_of_nil in H.
  - repeat (apply elem_of_cons in H as [H|H]; simplify_eq; try done).
    + auto.
    + by apply elem_of_nil in H.
  - apply HandleGoodRequest_wellFormed in Hgood as (Hwf & Hcode & _).
    assert (res = res') as ->.
    { destruct Htail as [->| ->];
        repeat (apply elem_of_cons in H as [H|H]; simplify_eq; try done);
        by apply elem_of_nil in H. }
    split; [done|]. destruct Hcode; auto.
Qed.

Lemma sessionLoop_written fuel s c res err :
  EvWrite res err ∈ (session fuel s c).1.2 →
  wellFormed res
  ∧ (Response.StatusCode res = statusOK ∨ Response.StatusCode res = fileNotFound
     ∨ Response.StatusCode res = statusMethodNotAllowed).
Proof.
  revert c. induction fuel as [|fuel IH]; intros c; simpl.
  { intros H. by apply elem_of_nil in H. }
  pose proof (turnOf_written s c res err) as Hturn.
  destruct (turn_of s c) as [[t evs] c'] eqn:E. simpl in Hturn.
  destruct t; simpl; auto.
  specialize (IH c').
  destruct (session fuel s c') as [[t' evs'] c'']. simpl in *.
  intros [H|H]%elem_of_app; auto.
Qed.

(** C5: every response a session writes is well formed: with status 200 it
    carries [Date], [Last-Modified], [Content-Type] and [Content-Length]; with
    status 404 or 400 its file path is empty; with status 400 it carries
    [Connection: close].  No other status is written. *)
Theorem written_responses_wellFormed s c res err :
  EvWrite res err ∈ (handleConnection s c).1.2 →
  wellFormed res
  ∧ (Response.StatusCode res = statusOK ∨ Response.StatusCode res = fileNotFound
     ∨ Response.StatusCode res = statusMethodNotAllowed).
Proof. apply sessionLoop_written. Qed.

End SessionProps.

Lemma written_responses_wellFormed_witness :
  wellFormed Demo.indexResponse
  ∧ (Response.StatusCode Demo.indexResponse = statusOK
     ∨ Response.StatusCode Demo.indexResponse = fileNotFound
     ∨ Response.StatusCode Demo.indexResponse = statusMethodNotAllowed).
Proof.
  apply (written_responses_wellFormed Demo.CanonicalHeaderKey Demo.MIMETypeByExtension
           Demo.FormatTime Demo.Sprint_Time Demo.os Demo.server
           (Demo.conn Demo.indexRequest) Demo.indexResponse None).
  apply list_elem_of_lookup. exists 2%nat. vm_compute. reflexivity.
Defined.

(** ** Keep-alive, close and the deadline *)

Lemma armedBeforeEveryRead_app evs evs' :
  armedBeforeEveryRead evs → armedBeforeEveryRead evs' →
  armedBeforeEveryRead (evs ++ evs').
Proof.
  intros H H' i Hi. destruct (decide (i < length evs)%nat) as [Hlt|Hge].
  - rewrite lookup_app_l in Hi by done. destruct (H i Hi) as (j & -> & Hj).
    exists j. split; [done|]. rewrite lookup_app_l by lia. done.
  - rewrite lookup_app_r in Hi by lia. destruct (H' _ Hi) as (j & Hij & Hj).
    exists (length evs + j)%nat. split; [lia|].
    rewrite lookup_app_r by lia. by replace (length evs + j - length evs)%nat with j by lia.
Qed.

Section KeepAlive.

Variable CanonicalHeaderKey : string → string.
Variable MIMETypeByExtension : string → string.
Variable FormatTime : Z → string.
Variable Sprint_Time : Z → string.
Variable os : OS.

Local Abbreviation handleBad := (HandleBadRequest FormatTime os).
Local Abbreviation handleBadTimeOut := (HandleBadRequestTimeOut FormatTime os).
Local Abbreviation handleGood :=
  (HandleGoodRequest MIMETypeByExtension FormatTime Sprint_Time os).
Local Abbreviation dispatch_ := (dispatch MIMETypeByExtension FormatTime Sprint_Time os).
Local Abbreviation turn_of :=
  (turnOf CanonicalHeaderKey MIMETypeByExtension FormatTime Sprint_Time os).
Local Abbreviation session :=
  (sessionLoop CanonicalHeaderKey MIMETypeByExtension FormatTime Sprint_Time os).
Local Abbreviation handleConnection :=
  (HandleConnection CanonicalHeaderKey MIMETypeByExtension FormatTime Sprint_Time os).

Lemma dispatch_good s c req b res :
  handleGood s req = Ret res →
  dispatch_ s c (Ret (Some req, b, None)) =
    (if Request.Close req then Return else Continue,
     [EvSetReadDeadline 5; EvReadRequest; EvWrite res (Write os res (writer c)).1]
       ++ (if Request.Close req then [EvClose] else []),
     setWriter (Write os res (writer c)).2 c).
Proof.
  intros Hres. unfold dispatch. simpl. rewrite Hres.
  destruct (Write _ _ _) as [werr w]. by destruct (Request.Close req).
Qed.

(** Every turn starts by arming the deadline with five seconds. *)
Lemma turnOf_starts_armed s c :
  head (turn_of s c).1.2 = Some (EvSetReadDeadline 5).
Proof.
  destruct (turnOf_events CanonicalHeaderKey MIMETypeByExtension FormatTime Sprint_Time
              os s c) as [->|(c' & r & ->)]; [done|].
  destruct (dispatch_events MIMETypeByExtension FormatTime Sprint_Time os s c' r)
    as [->|[->|[(? & ? & _ & _ & ->)|(? & ? & ? & ? & _ & _ & ->)]]]; done.
Qed.

Lemma turnOf_armedBeforeEveryRead s c : armedBeforeEveryRead (turn_of s c).1.2.
Proof.
  assert (∀ tail_, (∀ i, tail_ !! i ≠ Some EvReadRequest) →
            armedBeforeEveryRead (EvSetReadDeadline 5 :: EvReadRequest :: tail_))
    as Hshape.
  { intros tail_ Htail [|[|i]] Hi; simpl in *; [done|by exists 0%nat|].
    by apply Htail in Hi. }
  destruct (turnOf_events CanonicalHeaderKey MIMETypeByExtension FormatTime Sprint_Time
              os s c) as [->|(c' & r & ->)].
  { intros [|[|i]] Hi; done. }
  destruct (dispatch_events MIMETypeByExtension FormatTime Sprint_Time os s c' r)
    as [->|[->|[(? & ? & _ & _ & ->)|(? & ? & ? & ? & _ & [->| ->] & ->)]]];
    apply Hshape; intros [|[|[|i]]]; done.
Qed.

Lemma sessionLoop_armedBeforeEveryRead fuel s c :
  armedBeforeEveryRead (session fuel s c).1.2.
Proof.
  revert c. induction fuel as [|fuel IH]; intros c; simpl.
  { intros i Hi. done. }
  pose proof (turnOf_armedBeforeEveryRead s c) as Hturn.
  destruct (turn_of s c) as [[t evs] c'] eqn:E. simpl in Hturn.
  destruct t; simpl; auto.
  specialize (IH c').
  destruct (session fuel s c') as [[t' evs'] c'']. simpl in *.
  by apply armedBeforeEveryRead_app.
Qed.

(** The fuel does not matter once it exceeds the length of the input. *)
Lemma sessionLoop_fuel_irrel fuel1 fuel2 s c :
  (length (reader c) < fuel1)%nat → (length (reader c) < fuel2)%nat →
  session fuel1 s c = session fuel2 s c.
Proof.
  revert fuel2 c. induction fuel1 as [|fuel1 IH]; intros fuel2 c H1 H2; [lia|].
  destruct fuel2 as [|fuel2]; [lia|]. cbn [sessionLoop].
  destruct (turn_of s c) as [[t evs] c'] eqn:E. destruct t; try done.
  apply (turnOf_Continue_shorter CanonicalHeaderKey MIMETypeByExtension FormatTime
           Sprint_Time os) in E.
  by rewrite (IH fuel2 c') by lia.
Qed.

Lemma sessionLoop_starts_armed fuel s c :
  head (session (S fuel) s c).1.2 = Some (EvSetReadDeadline 5).
Proof.
  cbn [sessionLoop]. pose proof (turnOf_starts_armed s c) as Hhead.
  destruct (turn_of s c) as [[t evs] c'] eqn:E. simpl in Hhead.
  destruct t; try done.
  destruct (session fuel s c') as [[t' evs'] c'']. simpl.
  by destruct evs.
Qed.

(** C6: when a request was parsed and its response built, the session arms
    the deadline, reads, writes the response, and then closes the connection
    and returns exactly when the close flag of the request is set; otherwise
    it goes on, on the same connection, with what the session does on the rest
    of the input, and the first thing it does there is to arm the deadline of
    five seconds again.  No request is ever read in a session without the
    deadline having been armed just before. *)
Theorem keep_alive_unless_close s c req b br' res :
  head (armFails c) ≠ Some true →
  ReadRequest CanonicalHeaderKey (reader c) = (Ret (Some req, b, None), br') →
  handleGood s req = Ret res →
  let w := Write os res (writer c) in
  let c' := mkConn br' (tail (armFails c)) w.2 in
  let served := [EvSetReadDeadline 5; EvReadRequest; EvWrite res w.1] in
  handleConnection s c
  = (if Request.Close req then (Return, served ++ [EvClose], c')
     else ((handleConnection s c').1.1, served ++ (handleConnection s c').1.2,
           (handleConnection s c').2))
  ∧ (Request.Close req = true ↔ (handleConnection s c).1.2 !! 3%nat = Some EvClose)
  ∧ (Request.Close req = false →
       (handleConnection s c).1.2 !! 3%nat = Some (EvSetReadDeadline 5))
  ∧ turn_of s c = (if Request.Close req then Return else Continue,
                   served ++ (if Request.Close req then [EvClose] else []), c')
  ∧ (∀ fuel,
       session (S fuel) s c =
         if Request.Close req then (Return, served ++ [EvClose], c')
         else ((session fuel s c').1.1, served ++ (session fuel s c').1.2,
               (session fuel s c').2))
  ∧ (Request.Close req = true ↔ EvClose ∈ (turn_of s c).1.2)
  ∧ head (turn_of s c').1.2 = Some (EvSetReadDeadline 5)
  ∧ armedBeforeEveryRead (handleConnection s c).1.2.
Proof.
  intros Harm Hread Hres w c' served.
  assert (turn_of s c = (if Request.Close req then Return else Continue,
                 served ++ (if Request.Close req then [EvClose] else []), c')) as Hturn.
  { rewrite turnOf_armed by done. rewrite Hread. cbn [fst snd].
    by rewrite (dispatch_good _ _ _ _ _ Hres). }
  assert (∀ fuel,
       session (S fuel) s c =
         if Request.Close req then (Return, served ++ [EvClose], c')
         else ((session fuel s c').1.1, served ++ (session fuel s c').1.2,
               (session fuel s c').2)) as Hloop.
  { intros fuel. cbn [sessionLoop]. rewrite Hturn.
    destruct (Request.Close req); [done|].
    by destruct (session fuel s c') as [[t evs] c'']. }
  assert (handleConnection s c
          = (if Request.Close req then (Return, served ++ [EvClose], c')
             else ((handleConnection s c').1.1, served ++ (handleConnection s c').1.2,
                   (handleConnection s c').2))) as Hconn.
  { unfold HandleConnection. rewrite Hloop. destruct (Request.Close req); [done|].
    apply ReadRequest_consumes in Hread.
    by rewrite (sessionLoop_fuel_irrel (length (reader c)) (S (length (reader c'))) s c')
      by (simpl; lia). }
  split; [done|]. split; [|split; [|split; [done|split; [done|split; [|split]]]]].
  - rewrite Hconn. destruct (Request.Close req); simpl; [done|].
    split; [done|]. unfold HandleConnection.
    pose proof (sessionLoop_starts_armed (length (reader c')) s c') as Hhead.
    destruct (session _ s c') as [[t evs] c'']. simpl in *.
    destruct evs as [|e evs]; simplify_eq/=; done.
  - intros Hclose. rewrite Hconn, Hclose. simpl. unfold HandleConnection.
    pose proof (sessionLoop_starts_armed (length (reader c')) s c') as Hhead.
    destruct (session _ s c') as [[t evs] c'']. simpl in *.
    by destruct evs as [|e evs]; simplify_eq/=.
  - rewrite Hturn. cbn [fst snd]. destruct (Request.Close req); simpl.
    + split; [intros _|done]. do 3 (apply elem_of_cons; right). apply elem_of_cons. by left.
    + split; [done|]. intros H.
      repeat (apply elem_of_cons in H as [H|H]; [done|]). by apply elem_of_nil in H.
  - apply turnOf_starts_armed.
  - apply sessionLoop_armedBeforeEveryRead.
Qed.

(** A connection on which the deadline passes before any byte of a request
    is closed without a response. *)
Lemma idle_timeout_closes_silently s c tl :
  head (armFails c) ≠ Some true →
  reader c = Fail (net_Error true) :: tl →
  turn_of s c = (Return, [EvSetReadDeadline 5; EvReadRequest; EvClose],
                 mkConn tl (tail (armFails c)) (writer c)).
Proof.
  intros Harm Hrd. rewrite turnOf_armed by done. rewrite Hrd. reflexivity.
Qed.

End KeepAlive.

Lemma keep_alive_unless_close_witness :
  let c := Demo.conn (Demo.indexRequest ++ Demo.pipelined) in
  let c' := mkConn Demo.pipelined [] (Write Demo.os Demo.indexResponse (writer c)).2 in
  Demo.handleConnection c
  = ((Demo.handleConnection c').1.1,
     [EvSetReadDeadline 5; EvReadRequest;
      EvWrite Demo.indexResponse (Write Demo.os Demo.indexResponse (writer c)).1]
       ++ (Demo.handleConnection c').1.2,
     (Demo.handleConnection c').2).
Proof.
  intros c c'.
  destruct (keep_alive_unless_close Demo.CanonicalHeaderKey Demo.MIMETypeByExtension
              Demo.FormatTime Demo.Sprint_Time Demo.os Demo.server c
              (Request.mk "GET" "/" "HTTP/1.1" ∅ "x" false) true Demo.pipelined
              Demo.indexResponse) as [Hconn _].
  - done.
  - vm_compute. reflexivity.
  - vm_compute. reflexivity.
  - exact Hconn.
Defined.

(** ** Timeouts *)

Lemma append_cons (x : ascii) (a b : string) : String x a +:+ b = String x (a +:+ b).
Proof. reflexivity. Qed.

Lemma append_assoc (a b c : string) : (a +:+ b) +:+ c = a +:+ b +:+ c.
Proof. induction a as [|x a IH]; [done|]. by rewrite !append_cons, IH. Qed.

Lemma append_nil_r (a : string) : a +:+ "" = a.
Proof. induction a as [|x a IH]; [done|]. by rewrite append_cons, IH. Qed.

Lemma bytes_cons c s : bytes (String c s) = Byte c :: bytes s.
Proof. reflexivity. Qed.

(** A read that fails in the middle of a line hands back the part of the
    line that came. *)
Lemma ReadLine_from_partial line partial e tl :
  occurs strings.LF partial = false →
  ReadLine_from line (bytes partial ++ Fail e :: tl) = (line +:+ partial, Some e, tl).
Proof.
  revert line. induction partial as [|c p IH]; intros line Hlf.
  { by rewrite append_nil_r. }
  simpl in Hlf. case_decide as Hc; [done|].
  rewrite bytes_cons. cbn [app ReadLine_from].
  rewrite decide_False by done. rewrite IH by done.
  by rewrite append_assoc.
Qed.

Lemma ReadRequest_partial_line key partial e tl :
  partial ≠ "" → occurs strings.LF partial = false →
  ReadRequest key (bytes partial ++ Fail e :: tl) = (Ret (None, true, Some e), tl).
Proof.
  intros Hne Hlf. destruct partial as [|c p] eqn:Hp; [done|]. rewrite <- Hp in *.
  erewrite ReadRequest_unfold by (rewrite Hp; reflexivity).
  unfold readLines, ReadLine. rewrite ReadLine_from_partial by done.
  cbn [lineLoop]. change ("" +:+ partial) with partial.
  by rewrite decide_True by done.
Qed.

Section Timeouts.

Variable CanonicalHeaderKey : string → string.
Variable MIMETypeByExtension : string → string.
Variable FormatTime : Z → string.
Variable Sprint_Time : Z → string.
Variable os : OS.

Local Abbreviation handleBadTimeOut := (HandleBadRequestTimeOut FormatTime os).
Local Abbreviation turn_of :=
  (turnOf CanonicalHeaderKey MIMETypeByExtension FormatTime Sprint_Time os).

(** The part of C2 the code does keep: when the deadline passes in the
    middle of a line, one 400 response with [Connection: close] is written and
    the connection is closed. *)
Lemma timeout_within_line_400 s c partial tl :
  head (armFails c) ≠ Some true →
  partial ≠ "" → occurs strings.LF partial = false →
  reader c = bytes partial ++ Fail (net_Error true) :: tl →
  let res := handleBadTimeOut Response.zero in
  turn_of s c =
    (Return,
     [EvSetReadDeadline 5; EvReadRequest; EvWrite res (Write os res (writer c)).1; EvClose],
     mkConn tl (tail (armFails c)) (Write os res (writer c)).2)
  ∧ Response.StatusCode res = 400
  ∧ Response.Header res !! "Connection" = Some "close".
Proof.
  intros Harm Hne Hlf Hrd res. split; [|done].
  rewrite turnOf_armed by done. rewrite Hrd, ReadRequest_partial_line by done.
  unfold dispatch. cbn. by destruct (Write _ _ _).
Qed.

End Timeouts.

(** C2, as the code has it: a connection that sent the start line and the
    [Host] line of a request, each with its CRLF, and then let the deadline
    pass with the header section unfinished, is not answered with a 400
    response: the failed read ends the line loop like the empty line would,
    the partial request is served (here with the 200 response for the index
    page), and the connection is kept open for another turn.  The part on a
    deadline that passes before any byte holds ([idle_timeout_closes_silently]),
    and so does the part on a deadline that passes within a line
    ([timeout_within_line_400]). *)
Theorem timeout_after_header_lines_is_served :
  let partial := bytes (Demo.lines ["GET / HTTP/1.1"; "Host: x"]) in
  let c := Demo.conn (partial ++ [Fail (net_Error true)]) in
  turnOf Demo.CanonicalHeaderKey Demo.MIMETypeByExtension Demo.FormatTime
         Demo.Sprint_Time Demo.os Demo.server c
  = (Continue,
     [EvSetReadDeadline 5; EvReadRequest; EvWrite Demo.indexResponse None],
     mkConn [] [] (Write Demo.os Demo.indexResponse (writer c)).2)
  ∧ Response.StatusCode Demo.indexResponse = 200
  ∧ Response.Header Demo.indexResponse !! "Connection" = None
  ∧ (Demo.handleConnection c).1.2
    = [EvSetReadDeadline 5; EvReadRequest; EvWrite Demo.indexResponse None;
       EvSetReadDeadline 5; EvReadRequest; EvClose].
Proof.
  split; [vm_compute; reflexivity|]. split; [reflexivity|].
  split; [reflexivity|]. vm_compute. reflexivity.
Qed.

(** ** Writing a response *)

Lemma append_not_empty (a b : string) : b ≠ "" → a +:+ b ≠ "".
Proof. destruct a; [done|]. by rewrite append_cons. Qed.

Lemma ends_CRLF_not_empty (a : string) : a +:+ strings.CRLF ≠ "".
Proof. by apply append_not_empty. Qed.

Lemma statusLine_not_empty res : statusLine res ≠ "".
Proof. unfold statusLine. apply append_not_empty. by rewrite append_cons. Qed.

Lemma headerBlock_not_empty res : headerBlock res ≠ "".
Proof. apply ends_CRLF_not_empty. Qed.

(** The loop over the sorted keys writes the header lines one after the
    other. *)
Lemma headerText_from res keys (acc : string) :
  foldl (λ headerLine key,
           headerLine +:+ key +:+ ": "
           +:+ default "" (Response.Header res !! key) +:+ strings.CRLF) acc keys
  = acc +:+ concatLines (headerLine res <$> keys).
Proof.
  revert acc. induction keys as [|k keys IH]; intros acc; simpl.
  { by rewrite append_nil_r. }
  rewrite IH. unfold headerLine at 2. by rewrite append_assoc.
Qed.

Lemma headerText_concat res keys :
  headerText res keys = concatLines (headerLine res <$> keys).
Proof. unfold headerText. by rewrite headerText_from. Qed.

Lemma WriteSortedHeaders_block res w :
  WriteSortedHeaders res w = writeFlush w (headerBlock res).
Proof. unfold WriteSortedHeaders, headerBlock. by rewrite headerText_concat. Qed.

(** The keys are written in ascending order, each key of the map once. *)
Lemma sorted_keys res :
  let keys := sort.Strings (keyArray res) in
  StronglySorted String.le keys ∧ NoDup keys
  ∧ ∀ k, k ∈ keys ↔ is_Some (Response.Header res !! k).
Proof.
  intros keys. unfold keys, sort.Strings.
  pose proof (merge_sort_Permutation String.le (keyArray res)) as Hperm.
  split; [apply (StronglySorted_merge_sort String.le)|].
  split.
  - rewrite Hperm. apply NoDup_fst_map_to_list.
  - intros k. rewrite Hperm. unfold keyArray. rewrite list_elem_of_fmap. split.
    + intros ([k' v] & -> & Hin). apply elem_of_map_to_list in Hin. eauto.
    + intros [v Hv]. exists (k, v). split; [done|]. by apply elem_of_map_to_list.
Qed.

Lemma writeFlush_healthy w s :
  faults w = [] → writeFlush w s = (None, mkWriter (sent w +:+ s) []).
Proof.
  intros Hf. unfold writeFlush. case_decide as Hs.
  - subst s. rewrite append_nil_r. destruct w; simpl in *; by subst.
  - by rewrite Hf.
Qed.

(** C7: [Write] sends the status line [<protocol> <code> <reason>] and CRLF,
    then the header lines [KEY: VALUE] and CRLF in the ascending
    lexicographic order of their keys, each key of the map once, then the
    blank line, then the bytes of the file (none without a file path), in
    this order and nothing else.  When the connection fails on the status
    line, [Write] returns the error with what the connection took of the
    status line and nothing of the headers or the body; when it fails on the
    headers, nothing of the body is sent; when the file cannot be read, the
    error comes back after the headers. *)
Theorem Write_sections os res w :
  let keys := sort.Strings (keyArray res) in
  (StronglySorted String.le keys ∧ NoDup keys
   ∧ ∀ k, k ∈ keys ↔ is_Some (Response.Header res !! k))
  ∧ (∀ body, faults w = [] → bodyOf os res = inr body →
       Write os res w
       = (None, mkWriter (sent w +:+ statusLine res +:+ headerBlock res +:+ body) []))
  ∧ (∀ n e fs, faults w = Some (n, e) :: fs →
       Write os res w
       = (Some e, mkWriter (sent w +:+ String.substring 0 n (statusLine res)) fs))
  ∧ (∀ n e fs, faults w = None :: Some (n, e) :: fs →
       Write os res w
       = (Some e, mkWriter (sent w +:+ statusLine res
                            +:+ String.substring 0 n (headerBlock res)) fs))
  ∧ (∀ err, faults w = [] → bodyOf os res = inl err →
       Write os res w
       = (Some err, mkWriter (sent w +:+ statusLine res +:+ headerBlock res) []))
  ∧ (∀ n e fs body, faults w = None :: None :: Some (n, e) :: fs →
       bodyOf os res = inr body → body ≠ "" →
       Write os res w
       = (Some e, mkWriter (sent w +:+ statusLine res +:+ headerBlock res
                            +:+ String.substring 0 n body) fs)).
Proof.
  intros keys. split; [apply sorted_keys|].
  assert (WriteStatusLine res w = writeFlush w (statusLine res)) as Hstatus by done.
  split; [|split; [|split; [|split]]].
  - intros body Hf Hbody. unfold Write. rewrite Hstatus, writeFlush_healthy by done.
    rewrite WriteSortedHeaders_block, writeFlush_healthy by done. simpl.
    unfold WriteBody, bodyOf in *. case_decide.
    + injection Hbody as <-. by rewrite append_nil_r, append_assoc.
    + rewrite Hbody, writeFlush_healthy by done. simpl. by rewrite !append_assoc.
  - intros n e fs Hf. unfold Write. rewrite Hstatus. unfold writeFlush.
    rewrite decide_False by apply statusLine_not_empty. by rewrite Hf.
  - intros n e fs Hf. unfold Write. rewrite Hstatus. unfold writeFlush at 1.
    rewrite decide_False by apply statusLine_not_empty. rewrite Hf.
    rewrite WriteSortedHeaders_block. unfold writeFlush.
    rewrite decide_False by apply headerBlock_not_empty. simpl.
    by rewrite append_assoc.
  - intros err Hf Hbody. unfold Write. rewrite Hstatus, writeFlush_healthy by done.
    rewrite WriteSortedHeaders_block, writeFlush_healthy by done. simpl.
    unfold WriteBody, bodyOf in *. case_decide; [done|].
    rewrite Hbody. by rewrite append_assoc.
  - intros n e fs body Hf Hbody Hne. unfold Write. rewrite Hstatus.
    unfold writeFlush at 1.
    rewrite decide_False by apply statusLine_not_empty. rewrite Hf.
    rewrite WriteSortedHeaders_block. unfold writeFlush at 1.
    rewrite decide_False by apply headerBlock_not_empty. cbn [faults sent].
    unfold WriteBody, bodyOf in *. case_decide; [congruence|].
    rewrite Hbody. unfold writeFlush. rewrite decide_False by done. simpl.
    by rewrite !append_assoc.
Qed.

Lemma Write_sections_witness :
  Write Demo.os Demo.indexResponse (mkWriter "" [])
  = (None,
     mkWriter (Demo.lines ["HTTP/1.1 200 OK"; "Content-Length: 10";
                           "Content-Type: text/html"; "Date: 2000 GMT";
                           "Last-Modified: 1000 +0000 UTC"; ""] +:+ "0123456789") []).
Proof.
  destruct (Write_sections Demo.os Demo.indexResponse (mkWriter "" []))
    as (_ & Hok & _).
  rewrite (Hok "0123456789"); [|reflexivity|reflexivity].
  vm_compute. reflexivity.
Defined.

(** ** Framing: the lines of a terminated request are read as sent *)

Lemma rev_app_append (a b acc : string) :
  String.rev_app (a +:+ b) acc = String.rev_app b (String.rev_app a acc).
Proof.
  revert acc. induction a as [|x a IH]; intros acc; [done|].
  rewrite append_cons. simpl. apply IH.
Qed.

Lemma HasSuffix_CRLF (a : string) :
  strings.HasSuffix (a +:+ strings.CRLF) strings.CRLF = true.
Proof.
  unfold strings.HasSuffix, String.rev. rewrite rev_app_append.
  cbn. rewrite !decide_True by done. by destruct (String.rev_app a "").
Qed.

Lemma length_append (a b : string) :
  String.length (a +:+ b) = (String.length a + String.length b)%nat.
Proof. induction a as [|x a IH]; [done|]. rewrite append_cons. simpl. by rewrite IH. Qed.

Lemma substring_append (a b : string) :
  String.substring 0 (String.length a) (a +:+ b) = a.
Proof.
  induction a as [|x a IH]; [by destruct b|].
  rewrite append_cons. simpl. by rewrite IH.
Qed.

Lemma dropLast_CRLF (a : string) : strings.dropLast 2 (a +:+ strings.CRLF) = a.
Proof.
  unfold strings.dropLast. rewrite length_append.
  replace (String.length a + String.length strings.CRLF - 2)%nat
    with (String.length a) by (simpl; lia).
  apply substring_append.
Qed.

Lemma bytes_append (a b : string) : bytes (a +:+ b) = bytes a ++ bytes b.
Proof. induction a as [|x a IH]; [done|]. rewrite append_cons. simpl. by rewrite IH. Qed.

(** A line without a line feed, followed by CRLF, is read as it is. *)
Lemma ReadLine_from_line line l rest :
  occurs strings.LF l = false →
  ReadLine_from line (bytes (l +:+ strings.CRLF) ++ rest) = (line +:+ l, None, rest).
Proof.
  revert line. induction l as [|c l IH]; intros line Hlf.
  { change (bytes ("" +:+ strings.CRLF) ++ rest)
      with (Byte strings.CR :: Byte strings.LF :: rest).
    cbn [ReadLine_from].
    rewrite decide_False by done. rewrite decide_True by done.
    rewrite append_assoc.
    change (String strings.CR "" +:+ String strings.LF "") with strings.CRLF.
    by rewrite HasSuffix_CRLF, dropLast_CRLF, append_nil_r. }
  simpl in Hlf. case_decide as Hc; [done|].
  rewrite append_cons, bytes_cons. cbn [app ReadLine_from].
  rewrite decide_False by done. rewrite IH by done. by rewrite append_assoc.
Qed.

Lemma lineLoop_frames fuel l ls rest acc :
  (length ls < fuel)%nat →
  l ≠ "" →
  Forall (λ l, l ≠ "" ∧ occurs strings.LF l = false) ls →
  lineLoop fuel l None (bytes (Demo.lines (ls ++ [""])) ++ rest) acc
  = (Some (inr (acc ++ l :: ls)), rest).
Proof.
  revert fuel l acc. induction ls as [|l' ls IH]; intros fuel l acc Hfuel Hl Hall.
  - destruct fuel as [|fuel]; [simpl in Hfuel; lia|]. cbn [lineLoop].
    rewrite decide_True by done. unfold ReadLine.
    change (Demo.lines ([] ++ [""])) with ("" +:+ strings.CRLF).
    rewrite ReadLine_from_line by done. by rewrite lineLoop_empty.
  - destruct fuel as [|fuel]; [simpl in Hfuel; lia|]. cbn [lineLoop].
    rewrite decide_True by done. unfold ReadLine.
    apply Forall_cons in Hall as [[Hl' Hlf] Hall].
    change (Demo.lines ((l' :: ls) ++ [""]))
      with (l' +:+ strings.CRLF +:+ Demo.lines (ls ++ [""])).
    rewrite <- append_assoc, bytes_append, <- (assoc (++)).
    rewrite ReadLine_from_line by done.
    change ("" +:+ l') with l'.
    rewrite IH; [|simpl in Hfuel; lia|done..].
    by rewrite <- (assoc (++)).
Qed.

(** The lines of a request that is terminated by the empty line are read
    in order, and what follows the empty line is left for the next turn. *)
Lemma readLines_frames l ls rest :
  Forall (λ l, l ≠ "" ∧ occurs strings.LF l = false) (l :: ls) →
  readLines (bytes (Demo.lines (l :: ls ++ [""])) ++ rest) = (Some (inr (l :: ls)), rest).
Proof.
  intros [[Hl Hlf] Hall]%Forall_cons. unfold readLines, ReadLine.
  change (Demo.lines (l :: ls ++ [""]))
    with (l +:+ strings.CRLF +:+ Demo.lines (ls ++ [""])).
  rewrite <- append_assoc, bytes_append, <- (assoc (++)).
  rewrite ReadLine_from_line by done. change ("" +:+ l) with l.
  rewrite lineLoop_frames; [done| |done..].
  rewrite !length_app. destruct l; [done|].
  rewrite append_cons, bytes_cons. simpl.
  assert (length ls ≤ length (bytes (Demo.lines (ls ++ [""]))))%nat; [|lia].
  clear. induction ls as [|x ls IH]; simpl; [lia|].
  change (Demo.lines (x :: ls ++ [""]))
    with (x +:+ strings.CRLF +:+ Demo.lines (ls ++ [""])).
  rewrite bytes_append, bytes_append, !length_app. simpl. lia.
Qed.


(** * Further properties of the package *)

(** ** Header lines *)

Lemma validKeyByte_spec c : validKeyByte c = true ↔ keyByte c.
Proof.
  unfold validKeyByte, keyByte. cbv zeta. generalize (Ascii.N_of_ascii c). intros n.
  rewrite negb_true_iff, !andb_false_iff, !orb_false_iff, negb_false_iff,
    !N.ltb_ge, N.eqb_eq. lia.
Qed.

Lemma allValidKeyBytes_spec key : allValidKeyBytes key = true ↔ allBytes keyByte key.
Proof.
  induction key as [|c key IH]; simpl; [done|].
  destruct (validKeyByte c) eqn:Hc.
  - apply validKeyByte_spec in Hc. rewrite IH. tauto.
  - split; [done|]. intros [Hk _]. apply validKeyByte_spec in Hk. congruence.
Qed.

(** X1: [validKey] accepts exactly the non-empty keys made of letters,
    digits and hyphens. *)
Theorem validKey_spec key :
  validKey key = true ↔ key ≠ "" ∧ allBytes keyByte key.
Proof.
  unfold validKey. destruct key as [|c key].
  - simpl. split; [done|]. by intros [? _].
  - rewrite decide_False by done. rewrite allValidKeyBytes_spec. split; [done|tauto].
Qed.

Lemma allBytes_occurs P c s : allBytes P s → occurs c s = true → P c.
Proof.
  induction s as [|d s IH]; simpl; [done|]. intros [Hd Hs].
  case_decide; [by subst|auto].
Qed.

Lemma validKey_no_colon key : validKey key = true → occurs ":" key = false.
Proof.
  intros Hvalid. assert (allBytes keyByte key) as Hall.
  { unfold validKey in Hvalid. case_decide; [done|]. by apply allValidKeyBytes_spec. }
  destruct (occurs ":" key) eqn:Hc; [|done].
  apply (allBytes_occurs _ _ _ Hall) in Hc. unfold keyByte in Hc. simpl in Hc. lia.
Qed.

Lemma SplitN_colon_none header :
  occurs ":" header = false → strings.SplitN header ":" 2 = [header].
Proof.
  intros H. apply Cut_None in H.
  change (strings.splitCuts 1 header ":" = [header]).
  cbn [strings.splitCuts]. by rewrite H.
Qed.

Lemma SplitN_colon_some k v :
  occurs ":" k = false → strings.SplitN (k +:+ ":" +:+ v) ":" 2 = [k; v].
Proof.
  intros H.
  change (strings.splitCuts 1 (k +:+ String ":" v) ":" = [k; v]).
  cbn [strings.splitCuts]. by rewrite Cut_app.
Qed.

(** X2: [parseHeader] splits a header line at its first colon.  Without a
    colon the line is a "Bad header"; with a key before the first colon that
    [validKey] refuses it is a "Bad key"; otherwise the canonical key comes
    back with the converted rest of the line, further colons included. *)
Theorem parseHeader_spec key header :
  (occurs ":" header = false →
     parseHeader key header = ("", "", Some (fmt_Errorf "Bad header")))
  ∧ (∀ k v, header = k +:+ ":" +:+ v → occurs ":" k = false → validKey k = false →
       parseHeader key header = ("", "", Some (fmt_Errorf "Bad key")))
  ∧ (∀ k v, header = k +:+ ":" +:+ v → validKey k = true →
       parseHeader key header = (key k, convertValue v, None))
  ∧ (∀ k' v', parseHeader key header = (k', v', None) →
       ∃ k v, header = k +:+ ":" +:+ v ∧ validKey k = true
              ∧ k' = key k ∧ v' = convertValue v).
Proof.
  split; [|split; [|split]].
  - intros H. unfold parseHeader. by rewrite SplitN_colon_none.
  - intros k v -> Hk Hv. unfold parseHeader. rewrite SplitN_colon_some by done.
    by rewrite Hv.
  - intros k v -> Hv. unfold parseHeader.
    rewrite SplitN_colon_some by by apply validKey_no_colon. by rewrite Hv.
  - intros k' v'. unfold parseHeader.
    change (strings.SplitN header ":" 2) with (strings.splitCuts 1 header ":").
    cbn [strings.splitCuts].
    destruct (strings.Cut header ":") as [[k v]|] eqn:Hcut; [|done].
    apply Cut_Some in Hcut as [-> _].
    destruct (validKey k) eqn:Hv; simpl; [|done].
    intros [= <- <-]. by exists k, v.
Qed.

Lemma parseHeader_spec_witness :
  parseHeader Demo.CanonicalHeaderKey "content-type:  a:b"
  = ("Content-Type", convertValue "  a:b", None).
Proof.
  destruct (parseHeader_spec Demo.CanonicalHeaderKey "content-type:  a:b")
    as (_ & _ & Hok & _).
  apply (Hok "content-type" "  a:b"); reflexivity.
Defined.

Lemma TrimLeft_spaces s :
  (∃ n, s = spaces n +:+ strings.TrimLeft s " ")
  ∧ strings.HasPrefix (strings.TrimLeft s " ") " " = false.
Proof.
  induction s as [|c s [[n IH1] IH2]]; simpl.
  { split; [by exists 0%nat|done]. }
  case_decide as Hc; simpl.
  - subst c. split; [|done]. exists (S n). simpl. rewrite append_cons. by rewrite <- IH1.
  - split; [by exists 0%nat|]. by rewrite decide_False.
Qed.

Lemma HasPrefix_nil s : strings.HasPrefix s "" = true.
Proof. by destruct s. Qed.

Lemma TrimLeft_id s :
  strings.HasPrefix s " " = false → strings.TrimLeft s " " = s.
Proof.
  destruct s as [|c s]; simpl; [done|]. case_decide; [|done].
  by rewrite HasPrefix_nil.
Qed.

Lemma TrimRight_spec s cutset :
  (∃ t, s = strings.TrimRight s cutset +:+ t
        ∧ allBytes (λ c, strings.inCutset c cutset = true) t)
  ∧ (∀ c, lastByte (strings.TrimRight s cutset) = Some c →
          strings.inCutset c cutset = false).
Proof.
  induction s as [|c s [(t & IH1 & IH2) IH3]]; simpl.
  { split; [by exists ""|done]. }
  destruct (strings.TrimRight s cutset) as [|d u] eqn:Htrim.
  - destruct (strings.inCutset c cutset) eqn:Hc.
    + split; [|done]. exists (String c t). split; [by rewrite IH1|done].
    + split; [|by intros ? [= <-]]. exists t. split; [by rewrite IH1|done].
  - split; [|done]. exists t. split; [|done]. by rewrite IH1 at 1.
Qed.

Lemma TrimRight_idem s cutset :
  strings.TrimRight (strings.TrimRight s cutset) cutset = strings.TrimRight s cutset.
Proof.
  induction s as [|c s IH]; simpl; [done|].
  destruct (strings.TrimRight s cutset) as [|d u] eqn:Htrim.
  - destruct (strings.inCutset c cutset) eqn:Hc; simpl; [done|]. by rewrite Hc.
  - cbn [strings.TrimRight]. cbn [strings.TrimRight] in IH. by rewrite IH.
Qed.

Lemma TrimRight_keeps_start s cutset :
  strings.HasPrefix s " " = false →
  strings.HasPrefix (strings.TrimRight s cutset) " " = false.
Proof.
  destruct s as [|c s]; simpl; [done|].
  case_decide as Hc; [by rewrite HasPrefix_nil|]. intros _.
  destruct (strings.TrimRight s cutset); [|by simpl; rewrite decide_False].
  destruct (strings.inCutset c cutset); simpl; [done|]. by rewrite decide_False.
Qed.

Lemma inCutset_CRLF c :
  strings.inCutset c strings.CRLF = true ↔ c = strings.CR ∨ c = strings.LF.
Proof.
  unfold strings.CRLF. simpl. repeat case_decide; split; intros; try done; tauto.
Qed.

Lemma allBytes_impl (P Q : ascii → Prop) s :
  (∀ c, P c → Q c) → allBytes P s → allBytes Q s.
Proof. intros HPQ. induction s; simpl; [done|]. intros [??]; auto. Qed.

(** X3: [convertValue] takes the leading spaces and the trailing carriage
    returns and line feeds off a header value and nothing else: the value is
    the spaces, the result and the residue; the result starts with no space
    and ends with neither CR nor LF (inner and trailing spaces stay); and
    converting twice changes nothing. *)
Theorem convertValue_spec val :
  let v := convertValue val in
  (∃ n t, val = spaces n +:+ v +:+ t
          ∧ allBytes (λ c, c = strings.CR ∨ c = strings.LF) t)
  ∧ strings.HasPrefix v " " = false
  ∧ (∀ c, lastByte v = Some c → c ≠ strings.CR ∧ c ≠ strings.LF)
  ∧ convertValue v = v.
Proof.
  unfold convertValue. cbv zeta.
  destruct (TrimLeft_spaces val) as [[n Hn] Hstart].
  destruct (TrimRight_spec (strings.TrimLeft val " ") strings.CRLF)
    as [(t & Ht & Hall) Hlast].
  split; [|split; [|split]].
  - exists n, t. split; [by rewrite <- Ht|].
    eapply allBytes_impl; [|done]. intros c. apply inCutset_CRLF.
  - by apply TrimRight_keeps_start.
  - intros c Hc. apply Hlast in Hc.
    split; intros ->; by rewrite (proj2 (inCutset_CRLF _)) in Hc; auto.
  - rewrite TrimLeft_id by by apply TrimRight_keeps_start.
    apply TrimRight_idem.
Qed.

Lemma convertValue_spec_witness :
  convertValue (convertValue ("   a b " +:+ strings.CRLF)) = "a b ".
Proof.
  destruct (convertValue_spec ("   a b " +:+ strings.CRLF)) as (_ & _ & _ & Hidem).
  rewrite Hidem. reflexivity.
Defined.

(** ** What [ReadRequest] returns *)

Lemma afterStartLine_shape key m u p hdrs b req b' err :
  afterStartLine key m u p hdrs b = Ret (req, b', err) →
  b' = b ∧ (is_Some req ↔ err = None).
Proof.
  assert (∀ e : error,
            Ret (None : option Request.t, b, Some e) = Ret (req, b', err) →
            b' = b ∧ (is_Some req ↔ err = None)) as Hfail.
  { intros e [= <- <- <-]. split; [done|]. split; [by intros [??]|done]. }
  unfold afterStartLine.
  destruct (validMethod m); simpl; [|apply Hfail].
  destruct (validURL u) as [[]| |]; simpl; try done; [|apply Hfail].
  destruct (validProto p); simpl; [|apply Hfail].
  destruct (headerLoop _ _ _) as [e|vs]; [apply Hfail|].
  case_decide; [apply Hfail|].
  intros [= <- <- <-]. split; [done|]. split; [done|eauto].
Qed.

Lemma parseLines_shape key lines b req b' err :
  parseLines key lines b = Ret (req, b', err) →
  b' = b ∧ (is_Some req ↔ err = None).
Proof.
  destruct lines as [|line0 hdrs].
  { rewrite parseLines_nil. intros [= <- <- <-]. split; [done|].
    split; [by intros [??]|done]. }
  destruct (decide (length (strings.SplitN line0 " " 3) = 3%nat)) as [H3|H3].
  2:{ rewrite parseLines_not_three by done. intros [= <- <- <-]. split; [done|].
      split; [by intros [??]|done]. }
  destruct (strings.SplitN line0 " " 3) as [|m [|u [|p [|? ?]]]] eqn:Hs; try done.
  rewrite (parseLines_three _ _ _ _ m u p Hs). apply afterStartLine_shape.
Qed.

(** X4: whatever [ReadRequest] returns, the request is there exactly when
    the error is nil; the flag [bytesReceived] is false exactly when the
    input did not start with a byte (the peer had closed, or the read failed
    before any byte came), and then nothing but that failed read was taken
    from the input; a returned request always comes with the flag set. *)
Theorem ReadRequest_result_shape key br req b err br' :
  ReadRequest key br = (Ret (req, b, err), br') →
  (is_Some req ↔ err = None)
  ∧ (b = false ↔ ∀ c, head br ≠ Some (Byte c))
  ∧ (b = false → req = None ∧ br' = tail br)
  ∧ (is_Some req → b = true).
Proof.
  assert (∀ o : option Request.t, is_Some o → None = o → False) as Hnone
    by (by intros ? [??] <-).
  destruct br as [|[c|e] br0].
  - intros [= <- <- <- <-]. split; [split; [by intros [??]|done]|].
    split; [done|]. split; [done|by intros [??]].
  - erewrite ReadRequest_unfold by done.
    destruct (readLines _) as [[[e|lines]|] br1]; [| |done].
    + intros [= <- <- <- <-]. split; [split; [by intros [??]|done]|].
      split; [split; [done|intros H; by specialize (H c)]|].
      split; [done|by intros [??]].
    + intros [= H <-]. apply parseLines_shape in H as [-> H].
      split; [done|]. split; [split; [done|intros H'; by specialize (H' c)]|].
      split; done.
  - intros [= <- <- <- <-]. split; [split; [by intros [??]|done]|].
    split; [done|]. split; [done|by intros [??]].
Qed.

Lemma ReadRequest_result_shape_witness :
  (is_Some (@None Request.t) ↔ Some (net_Error true) = None)
  ∧ (false = false ↔ ∀ c, head [Fail (net_Error true); Byte "G"] ≠ Some (Byte c))
  ∧ (false = false → @None Request.t = None
                     ∧ [Byte "G"] = tail [Fail (net_Error true); Byte "G"])
  ∧ (is_Some (@None Request.t) → false = true).
Proof.
  apply (ReadRequest_result_shape Demo.CanonicalHeaderKey
           [Fail (net_Error true); Byte "G"] None false (Some (net_Error true))
           [Byte "G"]).
  reflexivity.
Defined.

(** The other headers: the last line with a key wins. *)
Lemma headerLoop_generic key hdrs vs0 vs k v :
  headerLoop key hdrs vs0 = inr vs →
  k ≠ "Host" → k ≠ "Connection" →
  headerMap vs !! k = Some v ↔
    (∃ pre h post, hdrs = pre ++ h :: post
       ∧ parseHeader key h = (k, v, None)
       ∧ ∀ h', h' ∈ post → (parseHeader key h').1.1 ≠ k)
    ∨ (headerMap vs0 !! k = Some v
       ∧ ∀ h', h' ∈ hdrs → (parseHeader key h').1.1 ≠ k).
Proof.
  intros Hloop HnH HnC. revert vs0 Hloop.
  induction hdrs as [|h rest IH]; intros vs0 Hloop.
  { simpl in Hloop. injection Hloop as <-. split.
    - intros H. right. split; [done|]. intros h' Hh'. by apply elem_of_nil in Hh'.
    - intros [(pre & h & post & Heq & _)|[H _]]; [by destruct pre|done]. }
  assert (∀ P : string → Prop, (∀ h', h' ∈ h :: rest → P h') ↔ P h ∧ ∀ h', h' ∈ rest → P h')
    as Hall.
  { intros P. split.
    - intros H. split; [apply H; by left|intros; apply H; by right].
    - intros [H1 H2] h' [->|?]%elem_of_cons; auto. }
  assert (∀ vs1, headerLoop key rest vs1 = inr vs →
            headerMap vs1 !! k = headerMap vs0 !! k →
            (parseHeader key h).1.1 ≠ k →
            headerMap vs !! k = Some v ↔
              (∃ pre h0 post, h :: rest = pre ++ h0 :: post
                 ∧ parseHeader key h0 = (k, v, None)
                 ∧ ∀ h', h' ∈ post → (parseHeader key h').1.1 ≠ k)
              ∨ (headerMap vs0 !! k = Some v
                 ∧ ∀ h', h' ∈ h :: rest → (parseHeader key h').1.1 ≠ k)) as Hskip.
  { intros vs1 Hl Hsame Hne. rewrite (IH _ Hl), Hsame, Hall. split.
    - intros [(pre & h0 & post & -> & ?)|[??]]; [left|by right].
      by exists (h :: pre), h0, post.
    - intros [(pre & h0 & post & Heq & Hh0 & Hpost)|[? [??]]]; [|by right].
      destruct pre as [|x pre]; simplify_eq/=.
      + by rewrite Hh0 in Hne.
      + left. by exists pre, h0, post. }
  destruct (parseHeader key h) as [[k0 v0] [e|]] eqn:Hh.
  { by rewrite (headerLoop_error _ _ _ _ _ _ _ Hh) in Hloop. }
  destruct (decide (k0 = "Host")) as [->|HnH0].
  { rewrite (headerLoop_Host _ _ _ _ _ Hh) in Hloop. by apply (Hskip _ Hloop). }
  destruct (decide (k0 = "Connection")) as [->|HnC0].
  { rewrite (headerLoop_Connection _ _ _ _ _ Hh) in Hloop.
    apply (Hskip _ Hloop); [by case_decide|done]. }
  rewrite (headerLoop_other _ _ _ _ _ _ Hh HnH0 HnC0) in Hloop.
  destruct (decide (k0 = k)) as [->|Hk].
  2:{ apply (Hskip _ Hloop); [simpl; by rewrite lookup_insert_ne|done]. }
  rewrite (IH _ Hloop). simpl. rewrite lookup_insert_eq. split.
  - intros [(pre & h0 & post & -> & ?)|[[= ->] Hnone]]; left.
    + by exists (h :: pre), h0, post.
    + by exists [], h, rest.
  - intros [(pre & h0 & post & Heq & Hh0 & Hpost)|[_ Hnone]].
    + destruct pre as [|x pre]; simplify_eq/=.
      * right. split; [congruence|done].
      * left. by exists pre, h0, post.
    + exfalso. apply (Hnone h); [by left|]. by rewrite Hh.
Qed.

(** X5: in a parsed request, the generic header map holds under every key
    other than [Host] and [Connection] the converted value of the last header
    line with that canonical key, and nothing under a key no line has. *)
Theorem ReadRequest_generic_headers key br r b br' k v :
  ReadRequest key br = (Ret (Some r, b, None), br') →
  k ≠ "Host" → k ≠ "Connection" →
  ∃ line0 hdrs,
    readLines br = (Some (inr (line0 :: hdrs)), br')
    ∧ (Request.Header r !! k = Some v ↔
         ∃ pre h post, hdrs = pre ++ h :: post
           ∧ parseHeader key h = (k, v, None)
           ∧ ∀ h', h' ∈ post → (parseHeader key h').1.1 ≠ k).
Proof.
  intros H HnH HnC. apply ReadRequest_success in H as (lines & Hread & Hparse).
  apply parseLines_success in Hparse as (line0 & hdrs & m & u & p & -> & Hs & Hafter).
  apply afterStartLine_success in Hafter as (vs & Hloop & Hhave & -> & _).
  exists line0, hdrs. split; [done|]. simpl.
  rewrite (headerLoop_generic _ _ _ _ k v Hloop HnH HnC). simpl.
  rewrite lookup_empty. split; [intros [?|[? _]]; done|auto].
Qed.

Lemma ReadRequest_generic_headers_witness :
  ∃ line0 hdrs,
    readLines Demo.pipelined = (Some (inr (line0 :: hdrs)), [])
    ∧ (Request.Header Demo.parsed !! "Accept" = Some "*/*" ↔
         ∃ pre h post, hdrs = pre ++ h :: post
           ∧ parseHeader Demo.CanonicalHeaderKey h = ("Accept", "*/*", None)
           ∧ ∀ h', h' ∈ post → (parseHeader Demo.CanonicalHeaderKey h').1.1 ≠ "Accept").
Proof.
  apply (ReadRequest_generic_headers Demo.CanonicalHeaderKey Demo.pipelined
           Demo.parsed true [] "Accept" "*/*"); [|done..].
  vm_compute. reflexivity.
Defined.

Lemma validURL_true url : validURL url = Ret true → strings.HasPrefix url "/" = true.
Proof.
  destruct url as [|c u]; [done|]. unfold validURL, byteAt. simpl.
  case_decide as Hc; [done|]. intros _. assert (c = "/"%char) as -> by congruence.
  by rewrite decide_True, HasPrefix_nil.
Qed.

Lemma get_last (s : string) :
  s ≠ "" → ∃ c, String.get (String.length s - 1) s = Some c.
Proof.
  induction s as [|c s IH]; [done|]. intros _. destruct s as [|d s].
  - by exists c.
  - destruct IH as [c' Hc']; [done|]. exists c'.
    simpl in *. by rewrite Nat.sub_0_r in Hc'.
Qed.

Lemma byteAt_last (s : string) : s ≠ "" → ∃ c, byteAt s (len s - 1) = Ret c.
Proof.
  intros Hs. destruct (get_last s Hs) as [c Hc]. exists c.
  unfold byteAt, len. destruct s as [|x s]; [done|].
  rewrite decide_False by (simpl; lia).
  replace (Z.to_nat (Z.of_nat (String.length (String x s)) - 1))
    with (String.length (String x s) - 1)%nat by (simpl; lia).
  by rewrite Hc.
Qed.

(** X6: a request that [ReadRequest] returns has the method [GET], the
    protocol [HTTP/1.1] and a URL that starts with a slash and holds no space;
    its start line was [GET <URL> HTTP/1.1], byte for byte.  The URL is in
    particular not empty, so the router can index its last byte. *)
Theorem ReadRequest_start_line key br r b br' :
  ReadRequest key br = (Ret (Some r, b, None), br') →
  Request.Method r = "GET" ∧ Request.Proto r = "HTTP/1.1"
  ∧ strings.HasPrefix (Request.URL r) "/" = true
  ∧ occurs " " (Request.URL r) = false
  ∧ (∃ hdrs, readLines br
             = (Some (inr (("GET " +:+ Request.URL r +:+ " HTTP/1.1") :: hdrs)), br'))
  ∧ (∃ c, byteAt (Request.URL r) (len (Request.URL r) - 1) = Ret c).
Proof.
  intros H. apply ReadRequest_success in H as (lines & Hread & Hparse).
  apply parseLines_success in Hparse as (line0 & hdrs & m & u & p & -> & Hs & Hafter).
  apply afterStartLine_success in Hafter as (vs & Hloop & _ & -> & _ & -> & -> & Hurl).
  apply headerLoop_inv in Hloop as (_ & _ & _ & _ & HM & HU & HP). simpl in *.
  rewrite HM, HU, HP. apply SplitN_three in Hs as (-> & _ & Hsp).
  apply validURL_true in Hurl.
  repeat split; try done; [by exists hdrs|].
  apply byteAt_last. by destruct u.
Qed.

Lemma ReadRequest_start_line_witness :
  Request.Method Demo.parsed = "GET" ∧ Request.Proto Demo.parsed = "HTTP/1.1"
  ∧ strings.HasPrefix (Request.URL Demo.parsed) "/" = true
  ∧ occurs " " (Request.URL Demo.parsed) = false
  ∧ (∃ hdrs, readLines Demo.pipelined
             = (Some (inr (("GET " +:+ Request.URL Demo.parsed +:+ " HTTP/1.1") :: hdrs)),
                []))
  ∧ (∃ c, byteAt (Request.URL Demo.parsed) (len (Request.URL Demo.parsed) - 1) = Ret c).
Proof.
  apply (ReadRequest_start_line Demo.CanonicalHeaderKey Demo.pipelined Demo.parsed true []).
  vm_compute. reflexivity.
Defined.

(** X7: the only panic of [ReadRequest] is the index out of range of
    [validURL] on an empty URL: it happens for the start lines that open with
    [GET] and two spaces, and for no other input. *)
Theorem ReadRequest_panics_only_on_empty_URL key br p br' :
  ReadRequest key br = (Panic p, br') →
  p = IndexOutOfRange
  ∧ ∃ rest hdrs, readLines br = (Some (inr (("GET  " +:+ rest) :: hdrs)), br').
Proof.
  destruct br as [|[c|e] br0]; try done.
  erewrite ReadRequest_unfold by done.
  destruct (readLines _) as [[[e|lines]|] br1]; try done.
  intros [= H <-]. destruct lines as [|line0 hdrs]; [by rewrite parseLines_nil in H|].
  destruct (parseLines_start_line_cases key line0 hdrs true)
    as [(url & -> & Hslash & Hsp)|[(rest & -> & Hpanic)|(msg & Hmsg)]].
  - rewrite (parseLines_three _ _ _ _ "GET" url "HTTP/1.1") in H
      by by apply (SplitN_start_line "GET" url "HTTP/1.1").
    rewrite afterStartLine_valid in H by by apply validURL_slash.
    destruct (headerLoop _ _ _); [done|]. by case_decide.
  - rewrite Hpanic in H. injection H as <-. split; [done|]. by exists rest, hdrs.
  - by rewrite Hmsg in H.
Qed.

Lemma ReadRequest_panics_only_on_empty_URL_witness :
  IndexOutOfRange = IndexOutOfRange
  ∧ ∃ rest hdrs,
      readLines (bytes (Demo.lines ["GET  / HTTP/1.1"; "Host: x"; ""]))
      = (Some (inr (("GET  " +:+ rest) :: hdrs)), []).
Proof.
  apply (ReadRequest_panics_only_on_empty_URL Demo.CanonicalHeaderKey
           (bytes (Demo.lines ["GET  / HTTP/1.1"; "Host: x"; ""])) IndexOutOfRange []).
  vm_compute. reflexivity.
Defined.

(** X8: [contains] answers whether the string is an element of the slice. *)
Theorem contains_spec (s : list string) (str : string) :
  contains s str = true ↔ str ∈ s.
Proof.
  induction s as [|v s IH]; simpl.
  - split; [done|]. intros H. by apply elem_of_nil in H.
  - rewrite elem_of_cons. case_decide; [subst; tauto|]. rewrite IH.
    split; [auto|]. intros [->|?]; done.
Qed.

(** ** The router *)

Section RouterExtras.

Variable MIMETypeByExtension : string → string.
Variable FormatTime : Z → string.
Variable Sprint_Time : Z → string.
Variable os : OS.

Local Abbreviation handleOK := (HandleOK MIMETypeByExtension FormatTime Sprint_Time os).
Local Abbreviation handleNotFound := (HandleNotFound FormatTime os).
Local Abbreviation handleGood :=
  (HandleGoodRequest MIMETypeByExtension FormatTime Sprint_Time os).

Lemma rootLoop_cases i root_split url_split :
  0 ≤ i →
  (rootLoop i root_split url_split = Ret false ↔
     root_split `prefix_of` drop (Z.to_nat i) url_split)
  ∧ (∀ p, rootLoop i root_split url_split = Panic p ↔
       p = IndexOutOfRange
       ∧ ∃ x rest, root_split = drop (Z.to_nat i) url_split ++ x :: rest)
  ∧ rootLoop i root_split url_split ≠ OutOfFuel.
Proof.
  revert i. induction root_split as [|v rest IH]; intros i Hi.
  { simpl. split; [split; [intros; apply prefix_nil|done]|]. split; [|done].
    intros p. split; [done|]. intros [_ (x & r & H)]. by destruct (drop _ _). }
  simpl. unfold index. rewrite decide_False by lia.
  destruct (url_split !! Z.to_nat i) as [u|] eqn:Hu; simpl.
  - rewrite (drop_S _ _ _ Hu).
    specialize (IH (i + 1) ltac:(lia)).
    replace (Z.to_nat (i + 1)) with (S (Z.to_nat i)) in IH by lia.
    destruct IH as (IH1 & IH2 & IH3).
    case_decide as Hne.
    + split; [split; [done|]|split; [|done]].
      * intros [k Hk]. simpl in Hk. congruence.
      * intros p. split; [done|]. intros [_ (x & r & H)]. simpl in H. congruence.
    + subst u. split; [|split; [|done]].
      * rewrite IH1. split; [apply prefix_cons|apply prefix_cons_inv_2].
      * intros p. rewrite IH2. split; intros [-> (x & r & H)]; (split; [done|]);
          exists x, r; simpl in *; congruence.
  - apply lookup_ge_None in Hu. rewrite drop_ge by done.
    split; [split; [done|]|split; [|done]].
    + intros [k Hk]. done.
    + intros p. split; [intros [= <-]; split; [done|]; by exists v, rest|].
      by intros [-> _].
Qed.

(** X9: the comparison of the document root with the cleaned path, element
    by element, lets the path through exactly when the elements of the root
    are a prefix of the elements of the path, and panics with an index out of
    range exactly when the path runs out first, that is when its elements are
    a proper prefix of those of the root; in every other case it reports a
    difference. *)
Theorem rootLoop_spec root_split url_split :
  (rootLoop 0 root_split url_split = Ret false ↔ root_split `prefix_of` url_split)
  ∧ (∀ p, rootLoop 0 root_split url_split = Panic p ↔
       p = IndexOutOfRange ∧ ∃ x rest, root_split = url_split ++ x :: rest)
  ∧ (rootLoop 0 root_split url_split = Ret true ↔
       ¬ root_split `prefix_of` url_split
       ∧ ¬ ∃ x rest, root_split = url_split ++ x :: rest).
Proof.
  destruct (rootLoop_cases 0 root_split url_split) as (H1 & H2 & H3); [done|].
  change (Z.to_nat 0) with 0%nat in *. rewrite drop_0 in *.
  split; [done|]. split; [done|].
  destruct (rootLoop 0 root_split url_split) as [[]|p|] eqn:E; [| | |done].
  - split; [intros _|done]. split.
    + intros H. by apply H1 in H.
    + intros H. by apply (λ H', proj2 (H2 IndexOutOfRange) (conj eq_refl H')) in H.
  - split; [done|]. intros [H _]. exfalso. by apply H, H1.
  - split; [done|]. intros [_ H]. exfalso. apply H. by apply (H2 p).
Qed.

Lemma rootLoop_spec_witness :
  rootLoop 0 (strings.Split "/var/www" "/") (strings.Split "/var" "/")
  = Panic IndexOutOfRange.
Proof.
  destruct (rootLoop_spec (strings.Split "/var/www" "/") (strings.Split "/var" "/"))
    as (_ & Hpanic & _).
  apply Hpanic. split; [done|]. by exists "www", [].
Defined.

Lemma byteAt_snoc (u : string) (c : ascii) :
  byteAt (u +:+ String c "") (len (u +:+ String c "") - 1) = Ret c.
Proof.
  unfold byteAt, len. rewrite length_append. simpl.
  rewrite decide_False by lia.
  replace (Z.to_nat (Z.of_nat (String.length u + 1) - 1)) with (String.length u) by lia.
  induction u as [|x u IH]; [done|]. by rewrite append_cons.
Qed.

(** X10: the default file name.  A URL that ends with a slash is served
    from the cleaned path of the document root, the URL and [index.html];
    any other URL from the cleaned path of the document root and the URL.  A
    200 response names that path as its file, and the file exists. *)
Theorem HandleGoodRequest_resolves s req u c r :
  Request.URL req = u +:+ String c "" →
  handleGood s req = Ret r →
  Response.StatusCode r = statusOK →
  Response.FilePath r
  = filepath.Clean (DocRoot s +:+ (if decide (c = "/"%char)
                                   then Request.URL req +:+ "index.html"
                                   else Request.URL req))
  ∧ is_Some (Stat os (Response.FilePath r))
  ∧ strings.Split (DocRoot s) "/" `prefix_of` strings.Split (Response.FilePath r) "/".
Proof.
  intros HURL H Hcode.
  apply HandleGoodRequest_Ret in H as [->|(last & Hlast & Hok & Hpre & _ & Hstat)]; [done|].
  rewrite HURL, byteAt_snoc in Hlast. injection Hlast as <-. simpl in *.
  apply HandleOK_Ret in Hok as (_ & _ & _ & _ & _ & _ & _ & Hpath & _).
  rewrite Hpath. split; [|done].
  f_equal. f_equal. repeat case_decide; try done; congruence.
Qed.

(** X11: a response built for a request carries [Connection: close]
    exactly when the request asked to close, always carries the date of the
    clock, and refers back to its request; this holds for the 200 and for the
    404 response alike. *)
Theorem HandleGoodRequest_echoes_close s req r :
  handleGood s req = Ret r →
  Response.Header r !! "Connection"
  = (if Request.Close req then Some "close" else None)
  ∧ Response.Header r !! "Date" = Some (FormatTime (Now os))
  ∧ Response.Request r = Some req
  ∧ Response.Proto r = responseProto.
Proof.
  intros H. apply HandleGoodRequest_Ret in H as [->|(last & _ & Hok & _)].
  - simpl. destruct (Request.Close req); by simplify_map_eq.
  - simpl in Hok. pose proof Hok as Hok'. unfold HandleOK in Hok'.
    apply HandleOK_Ret in Hok
      as (_ & _ & fi & _ & _ & _ & _ & _ & Hreq & _ & HD & _ & _ & HC).
    repeat split; try done.
    destruct (index _ _) as [part| |]; simpl in Hok'; try done.
    destruct (Stat os _); [|done]. by injection Hok' as <-.
Qed.

(** X12: the headers of a 200 response describe the file it names: the
    content length is the decimal size [os.Stat] reports, the content type is
    the MIME type of the text of the path from its first dot on, and the
    modification time is the one of the file.  A 404 response has none of the
    three headers and no file. *)
Theorem HandleGoodRequest_describes_file s req r :
  handleGood s req = Ret r →
  (Response.StatusCode r = statusOK →
     ∃ fi pre post,
       Stat os (Response.FilePath r) = Some fi
       ∧ Response.FilePath r = pre +:+ "." +:+ post ∧ occurs "." pre = false
       ∧ Response.Header r !! "Content-Length" = Some (pretty (Size fi))
       ∧ Response.Header r !! "Content-Type" = Some (MIMETypeByExtension ("." +:+ post))
       ∧ Response.Header r !! "Last-Modified" = Some (Sprint_Time (ModTime fi)))
  ∧ (Response.StatusCode r = fileNotFound →
       Response.FilePath r = ""
       ∧ Response.Header r !! "Content-Length" = None
       ∧ Response.Header r !! "Content-Type" = None
       ∧ Response.Header r !! "Last-Modified" = None).
Proof.
  intros H. apply HandleGoodRequest_Ret in H as [->|(last & _ & Hok & _)].
  - split; [done|]. intros _. simpl. destruct (Request.Close req); by simplify_map_eq.
  - simpl in Hok. apply HandleOK_Ret in Hok
      as (pre & post & fi & Hp & Hpre & Hstat & Hcode & Hpath & _ & HT & _ & HL & HM & _).
    rewrite Hcode. split; [intros _|done].
    exists fi, pre, post. rewrite Hpath. done.
Qed.


End RouterExtras.

Lemma HandleGoodRequest_resolves_witness :
  Response.FilePath Demo.indexResponse
  = filepath.Clean ("/var/www" +:+ "/" +:+ "index.html")
  ∧ is_Some (Stat Demo.os (Response.FilePath Demo.indexResponse))
  ∧ strings.Split "/var/www" "/"
    `prefix_of` strings.Split (Response.FilePath Demo.indexResponse) "/".
Proof.
  apply (HandleGoodRequest_resolves Demo.MIMETypeByExtension Demo.FormatTime
           Demo.Sprint_Time Demo.os Demo.server
           (Request.mk "GET" "/" "HTTP/1.1" ∅ "x" false) "" "/"%char Demo.indexResponse).
  - reflexivity.
  - vm_compute. reflexivity.
  - reflexivity.
Defined.

Lemma HandleGoodRequest_echoes_close_witness :
  Response.Header Demo.indexResponse !! "Connection" = None
  ∧ Response.Header Demo.indexResponse !! "Date" = Some "2000 GMT"
  ∧ Response.Request Demo.indexResponse
    = Some (Request.mk "GET" "/" "HTTP/1.1" ∅ "x" false)
  ∧ Response.Proto Demo.indexResponse = responseProto.
Proof.
  apply (HandleGoodRequest_echoes_close Demo.MIMETypeByExtension Demo.FormatTime
           Demo.Sprint_Time Demo.os Demo.server
           (Request.mk "GET" "/" "HTTP/1.1" ∅ "x" false) Demo.indexResponse).
  vm_compute. reflexivity.
Defined.

Lemma HandleGoodRequest_describes_file_witness :
  ∃ fi pre post,
    Stat Demo.os (Response.FilePath Demo.indexResponse) = Some fi
    ∧ Response.FilePath Demo.indexResponse = pre +:+ "." +:+ post
    ∧ occurs "." pre = false
    ∧ Response.Header Demo.indexResponse !! "Content-Length" = Some (pretty (Size fi))
    ∧ Response.Header Demo.indexResponse !! "Content-Type"
      = Some (Demo.MIMETypeByExtension ("." +:+ post))
    ∧ Response.Header Demo.indexResponse !! "Last-Modified"
      = Some (Demo.Sprint_Time (ModTime fi)).
Proof.
  destruct (HandleGoodRequest_describes_file Demo.MIMETypeByExtension Demo.FormatTime
              Demo.Sprint_Time Demo.os Demo.server
              (Request.mk "GET" "/" "HTTP/1.1" ∅ "x" false) Demo.indexResponse)
    as [Hok _].
  - vm_compute. reflexivity.
  - apply Hok. reflexivity.
Defined.


(** ** The session as a whole *)

Lemma written_app evs evs' : written (evs ++ evs') = written evs ++ written evs'.
Proof.
  induction evs as [|[] evs IH]; simpl; try done. by rewrite IH.
Qed.

Section SessionExtras.

Variable CanonicalHeaderKey : string → string.
Variable MIMETypeByExtension : string → string.
Variable FormatTime : Z → string.
Variable Sprint_Time : Z → string.
Variable os : OS.

Local Abbreviation handleBad := (HandleBadRequest FormatTime os).
Local Abbreviation handleBadTimeOut := (HandleBadRequestTimeOut FormatTime os).
Local Abbreviation handleGood :=
  (HandleGoodRequest MIMETypeByExtension FormatTime Sprint_Time os).
Local Abbreviation dispatch_ := (dispatch MIMETypeByExtension FormatTime Sprint_Time os).
Local Abbreviation turn_of :=
  (turnOf CanonicalHeaderKey MIMETypeByExtension FormatTime Sprint_Time os).
Local Abbreviation session :=
  (sessionLoop CanonicalHeaderKey MIMETypeByExtension FormatTime Sprint_Time os).
Local Abbreviation handleConnection :=
  (HandleConnection CanonicalHeaderKey MIMETypeByExtension FormatTime Sprint_Time os).

Lemma dispatch_shape s c r :
  turnShape (dispatch_ s c r).1.1 (dispatch_ s c r).1.2.
Proof.
  unfold dispatch. destruct r as [[[req b] err]| |]; simpl; auto.
  destruct (isEOF err); simpl; auto.
  destruct (isTimeout err && negb b); simpl; auto.
  destruct (isTimeout err && b); simpl.
  { destruct (Write _ _ _) as [werr w]. simpl. eauto 10. }
  case_bool_decide; simpl.
  { destruct (Write _ _ _) as [werr w]. simpl. eauto 10. }
  destruct req as [req|]; simpl; auto.
  destruct (handleGood s req) as [res| |] eqn:Hres; simpl; auto.
  apply HandleGoodRequest_wellFormed in Hres as (_ & Hcode & _).
  destruct (Write _ _ _) as [werr w].
  destruct (Request.Close req); simpl; [eauto 10|].
  exists res, werr. split; [done|]. by destruct Hcode as [-> | ->].
Qed.

Lemma turnOf_shape s c : turnShape (turn_of s c).1.1 (turn_of s c).1.2.
Proof.
  unfold turnOf. destruct (armFails c) as [|[] fs]; simpl; auto;
    destruct (ReadRequest _ _) as [r br]; apply dispatch_shape.
Qed.

Lemma sessionLoop_ends fuel s c :
  match (session fuel s c).1.1 with
  | Return =>
      ∃ evs0, (session fuel s c).1.2 = evs0 ++ [EvClose] ∧ EvClose ∉ evs0
  | Crash _ | Unfinished => EvClose ∉ (session fuel s c).1.2
  | Continue => False
  end.
Proof.
  revert c. induction fuel as [|fuel IH]; intros c; simpl.
  { apply not_elem_of_nil. }
  pose proof (turnOf_shape s c) as Hshape.
  destruct (turn_of s c) as [[t evs] c'] eqn:E. simpl in Hshape.
  destruct t; simpl in *.
  - destruct Hshape as (res & err & -> & _). specialize (IH c').
    destruct (session fuel s c') as [[t' evs'] c'']. simpl in *.
    destruct t'; [done| | |].
    + destruct IH as (evs0 & -> & Hevs0).
      exists ([EvSetReadDeadline 5; EvReadRequest; EvWrite res err] ++ evs0).
      split; [done|]. simpl. intros H.
      by repeat (apply elem_of_cons in H as [H|H]; [done|]).
    + intros H. by repeat (apply elem_of_cons in H as [H|H]; [done|]).
    + intros H. by repeat (apply elem_of_cons in H as [H|H]; [done|]).
  - destruct Hshape as [->|[->|(res & err & ->)]].
    + exists [EvSetReadDeadline 5]. split; [done|].
      intros H. apply elem_of_cons in H as [H|H]; [done|]. by apply elem_of_nil in H.
    + exists [EvSetReadDeadline 5; EvReadRequest]. split; [done|].
      intros H. repeat (apply elem_of_cons in H as [H|H]; [done|]).
      by apply elem_of_nil in H.
    + exists [EvSetReadDeadline 5; EvReadRequest; EvWrite res err]. split; [done|].
      intros H. repeat (apply elem_of_cons in H as [H|H]; [done|]).
      by apply elem_of_nil in H.
  - subst evs. intros H. repeat (apply elem_of_cons in H as [H|H]; [done|]).
    by apply elem_of_nil in H.
  - subst evs. intros H. repeat (apply elem_of_cons in H as [H|H]; [done|]).
    by apply elem_of_nil in H.
Qed.

(** X14: a session ends in one of two ways.  Either it returns, and then
    closing the connection was the last thing it did and it did so once,
    nothing being read or written after the close; or it panics, without
    having closed the connection.  The loop never ends otherwise. *)
Theorem HandleConnection_ends s c :
  match (handleConnection s c).1.1 with
  | Return =>
      ∃ evs0, (handleConnection s c).1.2 = evs0 ++ [EvClose] ∧ EvClose ∉ evs0
  | Crash p => EvClose ∉ (handleConnection s c).1.2
  | Continue | Unfinished => False
  end.
Proof.
  pose proof (sessionLoop_ends (S (length (reader c))) s c) as Hends.
  pose proof (HandleConnection_finished CanonicalHeaderKey MIMETypeByExtension
                FormatTime Sprint_Time os s c) as Hfin.
  unfold HandleConnection in *.
  by destruct (session (S (length (reader c))) s c) as [[[] evs] c'].
Qed.

Lemma sessionLoop_400_last fuel s c pre res post :
  written (session fuel s c).1.2 = pre ++ res :: post →
  Response.StatusCode res = statusMethodNotAllowed → post = [].
Proof.
  revert c pre. induction fuel as [|fuel IH]; intros c pre; simpl.
  { by destruct pre. }
  pose proof (turnOf_shape s c) as Hshape.
  destruct (turn_of s c) as [[t evs] c'] eqn:E. simpl in Hshape.
  destruct t; simpl in *.
  - destruct Hshape as (res0 & err & -> & Hcode). specialize (IH c').
    destruct (session fuel s c') as [[t' evs'] c'']. simpl in *.
    destruct pre as [|x pre]; simpl; intros [= <- H] H400; [done|]. eauto.
  - destruct Hshape as [->|[->|(res0 & err & ->)]]; simpl;
      destruct pre as [|x [|y pre]]; simpl; try done.
    by intros [= <- <-].
  - subst evs. by destruct pre.
  - subst evs. by destruct pre.
Qed.

(** X15: a 400 response is the last response of its session: whatever a
    session writes, nothing is written after a response with status 400, so a
    session writes at most one of them. *)
Theorem bad_request_is_last s c pre res post :
  written (handleConnection s c).1.2 = pre ++ res :: post →
  Response.StatusCode res = statusMethodNotAllowed →
  post = [].
Proof. apply sessionLoop_400_last. Qed.

(** X16: every turn that leaves the connection open has taken at least one
    byte from the input, and has taken one entry of the deadline oracle; the
    session over an input of [n] items therefore makes at most [n + 1]
    turns and comes to an end. *)
Theorem turn_makes_progress s c evs c' :
  turn_of s c = (Continue, evs, c') →
  (length (reader c') < length (reader c))%nat
  ∧ armFails c' = tail (armFails c)
  ∧ (handleConnection s c).1.1 ≠ Unfinished.
Proof.
  intros Hturn. split; [by eapply turnOf_Continue_shorter|].
  split; [|apply HandleConnection_finished].
  unfold turnOf in Hturn.
  destruct (armFails c) as [|[] fs] eqn:Harm; simpl in Hturn; [|done|].
  - destruct (ReadRequest _ _) as [r br]. unfold dispatch in Hturn.
    repeat case_match; simplify_eq; done.
  - destruct (ReadRequest _ _) as [r br]. unfold dispatch in Hturn.
    repeat case_match; simplify_eq; done.
Qed.

End SessionExtras.

Lemma bad_request_is_last_witness :
  ([] : list Response.t) = [].
Proof.
  apply (bad_request_is_last Demo.CanonicalHeaderKey Demo.MIMETypeByExtension
           Demo.FormatTime Demo.Sprint_Time Demo.os Demo.server
           (Demo.conn (Demo.indexRequest ++ Demo.hostless))
           [Demo.indexResponse]
           (HandleBadRequest Demo.FormatTime Demo.os Response.zero) []).
  - vm_compute. reflexivity.
  - reflexivity.
Defined.

Lemma turn_makes_progress_witness :
  (length Demo.pipelined < length (Demo.indexRequest ++ Demo.pipelined))%nat
  ∧ ([] : list bool) = tail []
  ∧ (Demo.handleConnection (Demo.conn (Demo.indexRequest ++ Demo.pipelined))).1.1
    ≠ Unfinished.
Proof.
  apply (turn_makes_progress Demo.CanonicalHeaderKey Demo.MIMETypeByExtension
           Demo.FormatTime Demo.Sprint_Time Demo.os Demo.server
           (Demo.conn (Demo.indexRequest ++ Demo.pipelined))
           [EvSetReadDeadline 5; EvReadRequest; EvWrite Demo.indexResponse None]
           (mkConn Demo.pipelined [] (Write Demo.os Demo.indexResponse (mkWriter "" [])).2)).
  vm_compute. reflexivity.
Defined.

(** ** Failed reads, and the bytes on the wire *)

Lemma ReadLine_from_eof line partial :
  occurs strings.LF partial = false →
  ReadLine_from line (bytes partial) = (line +:+ partial, Some io_EOF, []).
Proof.
  revert line. induction partial as [|c p IH]; intros line Hlf.
  { by rewrite append_nil_r. }
  simpl in Hlf. case_decide as Hc; [done|].
  rewrite bytes_cons. cbn [ReadLine_from].
  rewrite decide_False by done. rewrite IH by done. by rewrite append_assoc.
Qed.

Lemma ReadRequest_eof key partial :
  occurs strings.LF partial = false →
  ReadRequest key (bytes partial)
  = (Ret (None, bool_decide (partial ≠ ""), Some io_EOF), []).
Proof.
  intros Hlf. destruct partial as [|c p] eqn:Hp; [done|]. rewrite <- Hp in *.
  erewrite ReadRequest_unfold by (rewrite Hp; reflexivity).
  unfold readLines, ReadLine. rewrite ReadLine_from_eof by done.
  cbn [lineLoop]. change ("" +:+ partial) with partial.
  rewrite decide_True by by rewrite Hp. by rewrite bool_decide_true by by rewrite Hp.
Qed.

Lemma ReadRequest_fails_at_once key e tl :
  ReadRequest key (Fail e :: tl) = (Ret (None, false, Some e), tl).
Proof. reflexivity. Qed.

Section FailedReads.

Variable CanonicalHeaderKey : string → string.
Variable MIMETypeByExtension : string → string.
Variable FormatTime : Z → string.
Variable Sprint_Time : Z → string.
Variable os : OS.

Local Abbreviation handleNotFound := (HandleNotFound FormatTime os).
Local Abbreviation handleBad := (HandleBadRequest FormatTime os).
Local Abbreviation handleBadTimeOut := (HandleBadRequestTimeOut FormatTime os).
Local Abbreviation turn_of :=
  (turnOf CanonicalHeaderKey MIMETypeByExtension FormatTime Sprint_Time os).

(** X17: the deadline passing before the first line of a request is
    complete.  When no byte had come, the connection is closed and nothing is
    written; when a part of the line had come, one 400 response is written
    and the connection is closed. *)
Theorem timeout_before_first_line s c partial tl :
  head (armFails c) ≠ Some true →
  occurs strings.LF partial = false →
  reader c = bytes partial ++ Fail (net_Error true) :: tl →
  let res := handleBadTimeOut Response.zero in
  turn_of s c =
    if decide (partial = "")
    then (Return, [EvSetReadDeadline 5; EvReadRequest; EvClose],
          mkConn tl (tail (armFails c)) (writer c))
    else (Return,
          [EvSetReadDeadline 5; EvReadRequest;
           EvWrite res (Write os res (writer c)).1; EvClose],
          mkConn tl (tail (armFails c)) (Write os res (writer c)).2).
Proof.
  intros Harm Hlf Hrd res. case_decide as Hp.
  - subst partial. by apply idle_timeout_closes_silently.
  - by eapply (proj1 (timeout_within_line_400 _ _ _ _ _ _ _ _ _ Harm Hp Hlf Hrd)).
Qed.

(** X18: the peer closing its side before the first line of a request is
    complete, whether a part of the line had come or not: the connection is
    closed and nothing is written, no 400 response either. *)
Theorem eof_before_first_line s c partial :
  head (armFails c) ≠ Some true →
  occurs strings.LF partial = false →
  reader c = bytes partial →
  turn_of s c = (Return, [EvSetReadDeadline 5; EvReadRequest; EvClose],
                 mkConn [] (tail (armFails c)) (writer c)).
Proof.
  intros Harm Hlf Hrd. rewrite turnOf_armed by done.
  rewrite Hrd, ReadRequest_eof by done. reflexivity.
Qed.

(** X19: a read that fails with an error that is neither the end of the
    stream nor a timeout, before the first line of a request is complete, is
    answered like a malformed request: one 400 response is written and the
    connection is closed, also when no byte had come. *)
Theorem other_error_before_first_line s c partial e tl :
  head (armFails c) ≠ Some true →
  occurs strings.LF partial = false →
  e ≠ io_EOF → e ≠ net_Error true →
  reader c = bytes partial ++ Fail e :: tl →
  let res := handleBad Response.zero in
  turn_of s c =
    (Return,
     [EvSetReadDeadline 5; EvReadRequest; EvWrite res (Write os res (writer c)).1; EvClose],
     mkConn tl (tail (armFails c)) (Write os res (writer c)).2).
Proof.
  intros Harm Hlf Heof Htime Hrd res. rewrite turnOf_armed by done. rewrite Hrd.
  assert (ReadRequest CanonicalHeaderKey (bytes partial ++ Fail e :: tl)
          = (Ret (None, bool_decide (partial ≠ ""), Some e), tl)) as ->.
  { destruct (decide (partial = "")) as [->|Hp]; [done|].
    rewrite ReadRequest_partial_line by done. by rewrite bool_decide_true. }
  cbn [fst snd]. unfold dispatch.
  assert (isEOF (Some e) = false) as -> by by destruct e.
  assert (isTimeout (Some e) = false) as -> by by destruct e as [|[]| |].
  cbn. by destruct (Write _ _ _).
Qed.

(** X20: an empty first line.  The parser puts the marker
    "Empty bad request" in the place of the start line; the marker has three
    fields, so it is its first field that is refused as a method.  The
    session answers with one 400 response and closes; what follows the empty
    line is not read. *)
Theorem empty_start_line s c rest :
  head (armFails c) ≠ Some true →
  reader c = Byte strings.CR :: Byte strings.LF :: rest →
  let res := handleBad Response.zero in
  ReadRequest CanonicalHeaderKey (reader c)
  = (Ret (None, true, Some (fmt_Errorf "Bad Method.")), rest)
  ∧ turn_of s c =
      (Return,
       [EvSetReadDeadline 5; EvReadRequest; EvWrite res (Write os res (writer c)).1;
        EvClose],
       mkConn rest (tail (armFails c)) (Write os res (writer c)).2).
Proof.
  intros Harm Hrd res.
  assert (ReadRequest CanonicalHeaderKey (reader c)
          = (Ret (None, true, Some (fmt_Errorf "Bad Method.")), rest)) as HRR.
  { rewrite Hrd. erewrite ReadRequest_unfold by done.
    assert (readLines (Byte strings.CR :: Byte strings.LF :: rest)
            = (Some (inr []), rest)) as -> by reflexivity.
    by rewrite parseLines_nil. }
  split; [done|]. rewrite turnOf_armed by done. rewrite HRR. cbn [fst snd].
  apply dispatch_malformed.
Qed.

End FailedReads.

Lemma timeout_before_first_line_witness :
  turnOf Demo.CanonicalHeaderKey Demo.MIMETypeByExtension Demo.FormatTime
         Demo.Sprint_Time Demo.os Demo.server
         (Demo.conn (bytes "GET /x" ++ [Fail (net_Error true)]))
  = (Return,
     [EvSetReadDeadline 5; EvReadRequest;
      EvWrite (HandleBadRequestTimeOut Demo.FormatTime Demo.os Response.zero)
        (Write Demo.os (HandleBadRequestTimeOut Demo.FormatTime Demo.os Response.zero)
               (mkWriter "" [])).1;
      EvClose],
     mkConn [] []
       (Write Demo.os (HandleBadRequestTimeOut Demo.FormatTime Demo.os Response.zero)
              (mkWriter "" [])).2).
Proof.
  apply (timeout_before_first_line Demo.CanonicalHeaderKey Demo.MIMETypeByExtension
           Demo.FormatTime Demo.Sprint_Time Demo.os Demo.server
           (Demo.conn (bytes "GET /x" ++ [Fail (net_Error true)])) "GET /x" []);
    [done|reflexivity|reflexivity].
Defined.

Lemma eof_before_first_line_witness :
  turnOf Demo.CanonicalHeaderKey Demo.MIMETypeByExtension Demo.FormatTime
         Demo.Sprint_Time Demo.os Demo.server (Demo.conn (bytes "GET /x"))
  = (Return, [EvSetReadDeadline 5; EvReadRequest; EvClose],
     mkConn [] [] (mkWriter "" [])).
Proof.
  apply (eof_before_first_line Demo.CanonicalHeaderKey Demo.MIMETypeByExtension
           Demo.FormatTime Demo.Sprint_Time Demo.os Demo.server
           (Demo.conn (bytes "GET /x")) "GET /x");
    [done|reflexivity|reflexivity].
Defined.

Lemma other_error_before_first_line_witness :
  turnOf Demo.CanonicalHeaderKey Demo.MIMETypeByExtension Demo.FormatTime
         Demo.Sprint_Time Demo.os Demo.server (Demo.conn [Fail (net_Error false)])
  = (Return,
     [EvSetReadDeadline 5; EvReadRequest;
      EvWrite (HandleBadRequest Demo.FormatTime Demo.os Response.zero)
        (Write Demo.os (HandleBadRequest Demo.FormatTime Demo.os Response.zero)
               (mkWriter "" [])).1;
      EvClose],
     mkConn [] []
       (Write Demo.os (HandleBadRequest Demo.FormatTime Demo.os Response.zero)
              (mkWriter "" [])).2).
Proof.
  apply (other_error_before_first_line Demo.CanonicalHeaderKey Demo.MIMETypeByExtension
           Demo.FormatTime Demo.Sprint_Time Demo.os Demo.server
           (Demo.conn [Fail (net_Error false)]) "" (net_Error false) []);
    [done|reflexivity|done|done|reflexivity].
Defined.

Lemma empty_start_line_witness :
  ReadRequest Demo.CanonicalHeaderKey
    (Byte strings.CR :: Byte strings.LF :: Demo.indexRequest)
  = (Ret (None, true, Some (fmt_Errorf "Bad Method.")), Demo.indexRequest).
Proof.
  apply (empty_start_line Demo.CanonicalHeaderKey Demo.MIMETypeByExtension
           Demo.FormatTime Demo.Sprint_Time Demo.os Demo.server
           (Demo.conn (Byte strings.CR :: Byte strings.LF :: Demo.indexRequest))
           Demo.indexRequest); [done|reflexivity].
Defined.

(** X21: framing.  The lines of a request that is terminated by the empty
    line, each non-empty, without a line feed of its own and followed by
    CRLF, are the lines [ReadRequest] parses, in their order; it reads up to
    and including the empty line, and the bytes that follow are left in the
    reader for the next request. *)
Theorem ReadRequest_frames key l ls rest :
  Forall (λ l, l ≠ "" ∧ occurs strings.LF l = false) (l :: ls) →
  ReadRequest key (bytes (Demo.lines (l :: ls ++ [""])) ++ rest)
  = (parseLines key (l :: ls) true, rest).
Proof.
  intros Hall. pose proof (readLines_frames l ls rest Hall) as Hread.
  apply Forall_cons in Hall as [[Hl _] _]. destruct l as [|c l]; [done|].
  erewrite ReadRequest_unfold by reflexivity. by rewrite Hread.
Qed.

Lemma ReadRequest_frames_witness :
  ReadRequest Demo.CanonicalHeaderKey
    (bytes (Demo.lines ("GET / HTTP/1.1" :: ["Host: x"] ++ [""])) ++ Demo.pipelined)
  = (parseLines Demo.CanonicalHeaderKey ["GET / HTTP/1.1"; "Host: x"] true,
     Demo.pipelined).
Proof.
  apply (ReadRequest_frames Demo.CanonicalHeaderKey "GET / HTTP/1.1" ["Host: x"]
           Demo.pipelined).
  repeat constructor; done.
Defined.

Section Wire.

Variable FormatTime : Z → string.
Variable os : OS.

Local Abbreviation handleNotFound := (HandleNotFound FormatTime os).
Local Abbreviation handleBad := (HandleBadRequest FormatTime os).

Lemma Write_healthy_no_body res w :
  faults w = [] → Response.FilePath res = "" →
  Write os res w
  = (None, mkWriter (sent w +:+ statusLine res +:+ headerBlock res) []).
Proof.
  intros Hf Hpath. unfold Write.
  change (WriteStatusLine res w) with (writeFlush w (statusLine res)).
  rewrite writeFlush_healthy by done.
  rewrite WriteSortedHeaders_block, writeFlush_healthy by done. simpl.
  unfold WriteBody. rewrite decide_True by done. by rewrite append_assoc.
Qed.

(** X22: the bytes of the error responses on a healthy connection.  The 400
    response is the status line [HTTP/1.1 400 Bad Request], the headers
    [Connection: close] and [Date] in this order, and the blank line; the 404
    response is the status line [HTTP/1.1 404 Not Found], [Connection: close]
    when the request asked to close, [Date], and the blank line.  Neither has
    a body. *)
Theorem error_responses_on_the_wire w req :
  faults w = [] →
  let date := "Date: " +:+ FormatTime (Now os) in
  Write os (handleBad Response.zero) w
  = (None,
     mkWriter (sent w +:+ Demo.lines ["HTTP/1.1 400 Bad Request"; "Connection: close";
                                      date; ""]) [])
  ∧ Write os (handleNotFound Response.zero req) w
    = (None,
       mkWriter (sent w +:+ Demo.lines
                   (if Request.Close req
                    then ["HTTP/1.1 404 Not Found"; "Connection: close"; date; ""]
                    else ["HTTP/1.1 404 Not Found"; date; ""])) []).
Proof.
  intros Hf date. split.
  - rewrite Write_healthy_no_body by done. do 2 f_equal.
    unfold headerBlock.
    assert (sort.Strings (keyArray (handleBad Response.zero)) = ["Connection"; "Date"])
      as -> by (vm_compute; reflexivity).
    unfold Demo.lines, date, statusLine, headerLine. simpl.
    rewrite !lookup_insert_ne by done. rewrite !lookup_insert_eq. simpl.
    rewrite !append_assoc. reflexivity.
  - rewrite Write_healthy_no_body by done. do 2 f_equal.
    unfold headerBlock. destruct (Request.Close req) eqn:Hclose.
    + assert (sort.Strings (keyArray (handleNotFound Response.zero req))
              = ["Connection"; "Date"]) as ->.
      { unfold HandleNotFound. rewrite Hclose. vm_compute. reflexivity. }
      unfold Demo.lines, date, statusLine, headerLine. simpl. rewrite Hclose.
      rewrite !lookup_insert_eq, lookup_insert_ne by done.
      rewrite !lookup_insert_eq. simpl.
      rewrite !append_assoc. reflexivity.
    + assert (sort.Strings (keyArray (handleNotFound Response.zero req)) = ["Date"])
        as ->.
      { unfold HandleNotFound. rewrite Hclose. vm_compute. reflexivity. }
      unfold Demo.lines, date, statusLine, headerLine. simpl. rewrite Hclose.
      rewrite !lookup_insert_eq. simpl.
      rewrite !append_assoc. reflexivity.
Qed.

End Wire.

Lemma error_responses_on_the_wire_witness :
  Write Demo.os (HandleBadRequest Demo.FormatTime Demo.os Response.zero) (mkWriter "" [])
  = (None,
     mkWriter ("" +:+ Demo.lines ["HTTP/1.1 400 Bad Request"; "Connection: close";
                                  "Date: " +:+ Demo.FormatTime (Now Demo.os); ""]) []).
Proof.
  apply (error_responses_on_the_wire Demo.FormatTime Demo.os (mkWriter "" [])
           Demo.parsed).
  reflexivity.
Defined.

(** ** Round trip and pipelining *)

Lemma TrimRight_id s cutset :
  (∀ c, lastByte s = Some c → strings.inCutset c cutset = false) →
  strings.TrimRight s cutset = s.
Proof.
  induction s as [|c s IH]; [done|]. intros Hlast. destruct s as [|d s].
  - simpl. by rewrite (Hlast c).
  - change (strings.TrimRight (String c (String d s)) cutset)
      with (match strings.TrimRight (String d s) cutset with
            | EmptyString =>
                if strings.inCutset c cutset then EmptyString else String c EmptyString
            | t => String c t
            end).
    by rewrite IH by (intros c' Hc'; by apply Hlast).
Qed.

(** X23: round trip of a header line.  The line [KEY: VALUE] that
    [WriteSortedHeaders] writes for a header, without its CRLF, is parsed back
    by [parseHeader] into the canonical key and the same value, provided the
    key is one [validKey] accepts and the value neither starts with a space nor
    ends with CR or LF. *)
Theorem header_line_round_trip key res k v :
  Response.Header res !! k = Some v →
  validKey k = true →
  strings.HasPrefix v " " = false →
  (∀ c, lastByte v = Some c → c ≠ strings.CR ∧ c ≠ strings.LF) →
  headerLine res k = (k +:+ ": " +:+ v) +:+ strings.CRLF
  ∧ parseHeader key (k +:+ ": " +:+ v) = (key k, v, None).
Proof.
  intros Hk Hvalid Hstart Hlast. split.
  { unfold headerLine. rewrite Hk. simpl. by rewrite !append_assoc. }
  unfold parseHeader.
  change (k +:+ ": " +:+ v) with (k +:+ ":" +:+ String " " v).
  rewrite SplitN_colon_some by by apply validKey_no_colon.
  rewrite Hvalid. simpl. do 2 f_equal. unfold convertValue.
  change (strings.TrimLeft (String " " v) " ") with (strings.TrimLeft v " ").
  rewrite TrimLeft_id by done. apply TrimRight_id.
  intros c Hc. destruct (Hlast c Hc) as [HCR HLF].
  destruct (strings.inCutset c strings.CRLF) eqn:Hin; [|done].
  apply inCutset_CRLF in Hin as [?|?]; done.
Qed.

Lemma header_line_round_trip_witness :
  headerLine Demo.indexResponse "Content-Type"
  = ("Content-Type" +:+ ": " +:+ "text/html") +:+ strings.CRLF
  ∧ parseHeader Demo.CanonicalHeaderKey ("Content-Type" +:+ ": " +:+ "text/html")
    = (Demo.CanonicalHeaderKey "Content-Type", "text/html", None).
Proof.
  apply (header_line_round_trip Demo.CanonicalHeaderKey Demo.indexResponse
           "Content-Type" "text/html").
  - vm_compute. reflexivity.
  - reflexivity.
  - reflexivity.
  - intros c [= <-]. done.
Defined.

Section Pipelining.

Variable CanonicalHeaderKey : string → string.
Variable MIMETypeByExtension : string → string.
Variable FormatTime : Z → string.
Variable Sprint_Time : Z → string.
Variable os : OS.

Local Abbreviation handleGood :=
  (HandleGoodRequest MIMETypeByExtension FormatTime Sprint_Time os).
Local Abbreviation turn_of :=
  (turnOf CanonicalHeaderKey MIMETypeByExtension FormatTime Sprint_Time os).
Local Abbreviation session :=
  (sessionLoop CanonicalHeaderKey MIMETypeByExtension FormatTime Sprint_Time os).


End Pipelining.

